(** * bosun notifications: cmd/bosun/conf/notify.go

    A shallow embedding of the notification dispatcher of bosun
    ([Notify], [DoPost], [DoGet], [DoEmail], [Send], [SendMail]) and the
    properties of its mail and HTTP channels.

    The Go code talks to the outside world through [net/smtp], [net/http],
    the [slog] logger and the [collect] counters.  The embedding keeps those
    effects explicit: a statement is a function on a [World] that holds the
    state of the outside world, the list of calls made to it together with
    their replies, the log and the counters.  The outside world itself (the
    relay, the HTTP server) is an arbitrary deterministic machine, a
    parameter of every definition. *)

From stdpp Require Import base option list strings gmap.
From Stdlib Require Import ZArith Lia Strings.Byte.

Local Open Scope Z_scope.

(** ** Go values *)

(** [[]byte] *)
Abbreviation bytes := (list byte).

(** A Go [error] value that is not nil; [option error] is an [error] that
    may be nil. *)
Inductive error : Type :=
| errors_New (msg : string).

Definition not_nil {A : Type} (x : option A) : bool :=
  match x with Some _ => true | None => false end.

(** [[]byte(s)] and [string(b)]: the same bytes. *)
Definition bytes_of_string (s : string) : bytes := String.list_byte_of_string s.
Definition string_of_bytes (b : bytes) : string := String.string_of_list_byte b.

(** [len(s) > 0] on a string. *)
Definition len_gt_0 (s : string) : bool :=
  match s with EmptyString => false | String _ _ => true end.

(** ** [strings.Split]

    [strings.Split s sep] for a separator that is not empty: the pieces of
    [s] between the occurrences of [sep], found from the left and not
    overlapping.  (With an empty separator Go splits after each UTF-8
    sequence; the code never does that and the case is left to split
    after each byte.) *)
Fixpoint split_go (sep : string) (skip : nat) (acc : string) (s : string)
  : list string :=
  match s with
  | EmptyString => [acc]
  | String c s' =>
      match skip with
      | S k => split_go sep k acc s'
      | O =>
          if String.prefix sep s
          then acc :: split_go sep (Nat.pred (String.length sep)) EmptyString s'
          else split_go sep O (acc +:+ String c EmptyString) s'
      end
  end.

Definition strings_Split (s sep : string) : list string :=
  split_go sep O EmptyString s.

(** ** Collaborator types *)

(** [mail.Address] *)
Record mail_Address : Type := {
  Name : string;
  Address : string;
}.

(** [url.URL], through its [String] method. *)
Record url_URL : Type := { URL_String : string }.

(** [models.Attachment] *)
Record Attachment : Type := {
  Data : bytes;
  Filename : string;
  ContentType : string;
}.

(** [models.IncidentState], the fields this file reads. *)
Record IncidentState : Type := {
  AlertKey : string;
  Subject : string;
  Body : string;
  EmailSubject : bytes;
  EmailBody : bytes;
  Attachments : list Attachment;
}.

(** The [interface{}] handed to a template: the incident or a string. *)
Inductive context : Type :=
| ctx_state (st : IncidentState)
| ctx_string (s : string).

(** [template.Template], through its [Execute] method: the bytes written
    to the buffer and the error. *)
Record Template : Type := {
  Execute : context -> bytes * option error;
}.

(** [Notification] *)
Record Notification : Type := {
  n_Email : list mail_Address;
  n_Post : option url_URL;
  n_Get : option url_URL;
  n_Print : bool;
  n_UseBody : bool;
  n_Body : option Template;
  n_ContentType : string;
  n_UseFullContext : bool;
}.

(** [Conf], the fields this file reads. *)
Record Conf : Type := {
  EmailFrom : string;
  SMTPHost : string;
  SMTPUsername : string;
  SMTPPassword : string;
}.

(** [email.Attachment] and [email.Email] of jordan-wright/email. *)
Record email_Attachment : Type := {
  a_Filename : string;
  a_ContentType : string;
  a_Content : bytes;
}.

Record Email : Type := {
  From : string;
  To : list string;
  Cc : list string;
  Bcc : list string;
  e_Subject : string;
  e_HTML : bytes;
  e_Headers : gmap string (list string);
  e_Attachments : list email_Attachment;
}.

(** [email.NewEmail()] *)
Definition NewEmail : Email :=
  {| From := EmptyString; To := []; Cc := []; Bcc := [];
     e_Subject := EmptyString; e_HTML := [];
     e_Headers := ∅; e_Attachments := [] |}.

(** [e.Headers.Add(key, value)] *)
Definition Headers_Add (key value : string) (h : gmap string (list string))
  : gmap string (list string) :=
  <[key := default [] (h !! key) ++ [value]]> h.

(** [tls.Config] *)
Record tls_Config : Type := { InsecureSkipVerify : bool }.

(** [smtp.Auth] *)
Inductive smtp_Auth : Type :=
| PlainAuth (identity username password host : string).

(** [io.ReadCloser] of a response body: an opaque handle. *)
Definition io_ReadCloser : Type := nat.

(** [http.Response] *)
Record http_Response : Type := {
  Status : string;
  StatusCode : Z;
  resp_Body : option io_ReadCloser;
}.

(** ** Calls to the outside world

    One constructor for each call the file makes on [net/smtp] and
    [net/http], indexed by the type of what the call returns.  An
    [option error] is the returned [error]; a call that also returns a
    handle ([smtp.Dial], [Client.Data]) returns a usable one exactly when
    the error is nil. *)
Inductive netE : Type -> Type :=
| smtp_Dial (addr : string) : netE (option error)
| Client_Hello (localName : string) : netE (option error)
| Client_Extension (ext : string) : netE (bool * string)
| Client_StartTLS (config : tls_Config) : netE (option error)
| Client_Auth (a : smtp_Auth) : netE (option error)
| Client_Mail (from : string) : netE (option error)
| Client_Rcpt (to : string) : netE (option error)
| Client_Data : netE (option error)
| Writer_Write (p : bytes) : netE (Z * option error)
| Writer_Close : netE (option error)
| Client_Quit : netE (option error)
| Client_Close : netE (option error)
| http_Post (url contentType : string) (body : bytes)
    : netE (option http_Response * option error)
| http_Get (url : string) : netE (option http_Response * option error)
| ReadCloser_Close (b : io_ReadCloser) : netE (option error).

(** A call with its reply. *)
Inductive event : Type :=
| Ev {X : Type} (call : netE X) (reply : X).

(** ** The log and the counters *)

(** An argument of a log call. *)
Inductive value : Type :=
| VString (s : string)
| VInt (z : Z)
| VError (e : error)
| VStrings (l : list string).

(** Modelled from the spec: the [slog] package is not part of the source
    at hand; the spec has a log sink that receives a line for every success
    and failure.  A log entry is the call as it was made. *)
Inductive slog_call : Type :=
| slog_Infoln (args : list value)
| slog_Infof (format : string) (args : list value)
| slog_Error (args : list value)
| slog_Errorln (args : list value)
| slog_Errorf (format : string) (args : list value).

(** A log entry of error level: how a failure is logged. *)
Definition is_failure_log (l : slog_call) : bool :=
  match l with
  | slog_Error _ | slog_Errorln _ | slog_Errorf _ _ => true
  | slog_Infoln _ | slog_Infof _ _ => false
  end.

(** Modelled from the spec: the [collect] package is not part of the source
    at hand; the spec has a telemetry sink of monotonically increasing
    counters, incremented by [collect.Add].  The counters are a map from
    the metric name to its count, a missing name counting as zero. *)
Definition counter_add (metric : string) (inc : Z) (c : gmap string Z)
  : gmap string Z :=
  <[metric := default 0 (c !! metric) + inc]> c.

(** ** The world and statements *)

Record World (Env : Type) : Type := mkWorld {
  env : Env;                      (* the state of the outside world *)
  trace : list event;             (* the calls made so far, oldest first *)
  log : list slog_call;           (* the log, oldest first *)
  counters : gmap string Z;       (* the [collect] counters *)
}.
Arguments mkWorld {Env} _ _ _ _.
Arguments env {Env} _.
Arguments trace {Env} _.
Arguments log {Env} _.
Arguments counters {Env} _.

(** How a statement ends: control goes on to the next statement, the
    function returns, or the goroutine panics. *)
Inductive outcome (R A : Type) : Type :=
| Next (a : A)
| Return (r : R)
| Panic.
Arguments Next {R A} _.
Arguments Return {R A} _.
Arguments Panic {R A}.

(** How a function call ends. *)
Inductive result (R : Type) : Type :=
| Returned (r : R)
| Panicked.
Arguments Returned {R} _.
Arguments Panicked {R}.

Section Program.

Context {Env : Type}.

(** The outside world: its reply to a call and its next state. *)
Variable respond : forall X : Type, Env -> netE X -> Env * X.

(** [mail.ParseAddress]: the parsed address, or the error. *)
Variable mail_ParseAddress : string -> mail_Address + error.

(** [Email.Bytes] of jordan-wright/email: the message, or the error. *)
Variable Email_Bytes : Email -> bytes + error.

(** [util.Hostname] *)
Variable util_Hostname : string.

(** A statement inside a function that returns an [R]. *)
Definition stmt (R A : Type) : Type := World Env -> outcome R A * World Env.

(** A function that returns an [R]. *)
Definition fn (R : Type) : Type := World Env -> result R * World Env.

#[global] Instance stmt_ret {R : Type} : MRet (stmt R) :=
  fun A a w => (Next a, w).

#[global] Instance stmt_bind {R : Type} : MBind (stmt R) :=
  fun A B f m w =>
    match m w with
    | (Next a, w') => f a w'
    | (Return r, w') => (Return r, w')
    | (Panic, w') => (Panic, w')
    end.

Definition skip {R : Type} : stmt R unit := mret tt.

(** [return r] *)
Definition return_ {R A : Type} (r : R) : stmt R A :=
  fun w => (Return r, w).

Definition panic {R A : Type} : stmt R A :=
  fun w => (Panic, w).

(** A function body.  Reaching the end of the body of a function without
    results returns. *)
Definition func {R : Type} (body : stmt R R) : fn R :=
  fun w =>
    match body w with
    | (Next r, w') => (Returned r, w')
    | (Return r, w') => (Returned r, w')
    | (Panic, w') => (Panicked, w')
    end.

(** A call of a function of this file. *)
Definition invoke {R R' : Type} (f : fn R') : stmt R R' :=
  fun w =>
    match f w with
    | (Returned r, w') => (Next r, w')
    | (Panicked, w') => (Panic, w')
    end.

(** A call to the outside world, recorded in the trace. *)
Definition call {R X : Type} (e : netE X) : stmt R X :=
  fun w =>
    let (s, x) := respond X (env w) e in
    (Next x, mkWorld s (trace w ++ [Ev e x]) (log w) (counters w)).

(** [defer e] followed by the rest of the function body: the deferred
    call runs when the function ends, by a return or by a panic, and
    what it returns is dropped. *)
Definition defer {R A X : Type} (e : netE X) (rest : stmt R A) : stmt R A :=
  fun w =>
    let (o, w1) := rest w in
    let (s, x) := respond X (env w1) e in
    (o, mkWorld s (trace w1 ++ [Ev e x]) (log w1) (counters w1)).

(** [for _, x := range l { body }] *)
Fixpoint for_range {R A : Type} (l : list A) (body : A -> stmt R unit)
  : stmt R unit :=
  match l with
  | [] => skip
  | x :: l' => body x;; for_range l' body
  end.

(** [l[i]]: an index out of range panics. *)
Definition index {R A : Type} (l : list A) (i : nat) : stmt R A :=
  match l !! i with
  | Some x => mret x
  | None => panic
  end.

(** [*p]: a nil pointer panics. *)
Definition deref {R A : Type} (p : option A) : stmt R A :=
  match p with
  | Some x => mret x
  | None => panic
  end.

(** A call of [slog]. *)
Definition slog {R : Type} (l : slog_call) : stmt R unit :=
  fun w => (Next tt, mkWorld (env w) (trace w) (log w ++ [l]) (counters w)).

(** [collect.Add(metric, nil, inc)] *)
Definition collect_Add {R : Type} (metric : string) (inc : Z) : stmt R unit :=
  fun w =>
    (Next tt,
     mkWorld (env w) (trace w) (log w) (counter_add metric inc (counters w))).

(** ** [SendMail] *)

Definition SendMail (addr username password : string) (from : string)
    (to : list string) (msg : bytes) : fn (option error) :=
  func (
    err ← call (smtp_Dial addr);
    (if not_nil err then return_ err else skip);;
    defer Client_Close (
      err ← call (Client_Hello "localhost");
      (if not_nil err then return_ err else skip);;
      '(ok, _) ← call (Client_Extension "STARTTLS");
      (if ok : bool then
         err ← call (Client_StartTLS {| InsecureSkipVerify := true |});
         (if not_nil err then return_ err else skip);;
         (if len_gt_0 username || len_gt_0 password then
            hostWithoutPort ← index (strings_Split addr ":") 0;
            let auth :=
              PlainAuth EmptyString username password hostWithoutPort in
            call (Client_Auth auth);; skip
          else skip)
       else skip);;
      err ← call (Client_Mail from);
      (if not_nil err then return_ err else skip);;
      for_range to (fun addr =>
        err ← call (Client_Rcpt addr);
        if not_nil err then return_ err else skip);;
      err ← call Client_Data;
      (if not_nil err then return_ err else skip);;
      '(_, err) ← call (Writer_Write msg);
      (if not_nil err then return_ err else skip);;
      err ← call Writer_Close;
      (if not_nil err then return_ err else skip);;
      err ← call Client_Quit;
      return_ err)).

(** ** [Send] *)

Definition Send (e : Email) (addr username password : string)
  : fn (option error) :=
  func (
    (* Merge the To, Cc, and Bcc fields *)
    let to : list string := [] in
    let to := ((to ++ To e) ++ Cc e) ++ Bcc e in
    (* at least one recipient and one From address *)
    (if String.eqb (From e) EmptyString || (length to =? 0)%nat then
       return_ (Some (errors_New
         "Must specify at least one From address and one To address"))
     else skip);;
    match mail_ParseAddress (From e) with
    | inr err => return_ (Some err)
    | inl from =>
        match Email_Bytes e with
        | inr err => return_ (Some err)
        | inl raw =>
            err ← invoke (SendMail addr username password
                            (Address from) to raw);
            return_ err
        end
    end).

(** ** [DoEmail] *)

Definition set_From (v : string) (e : Email) : Email :=
  {| From := v; To := To e; Cc := Cc e; Bcc := Bcc e;
     e_Subject := e_Subject e; e_HTML := e_HTML e;
     e_Headers := e_Headers e; e_Attachments := e_Attachments e |}.

Definition set_To (v : list string) (e : Email) : Email :=
  {| From := From e; To := v; Cc := Cc e; Bcc := Bcc e;
     e_Subject := e_Subject e; e_HTML := e_HTML e;
     e_Headers := e_Headers e; e_Attachments := e_Attachments e |}.

Definition set_Subject (v : string) (e : Email) : Email :=
  {| From := From e; To := To e; Cc := Cc e; Bcc := Bcc e;
     e_Subject := v; e_HTML := e_HTML e;
     e_Headers := e_Headers e; e_Attachments := e_Attachments e |}.

Definition set_HTML (v : bytes) (e : Email) : Email :=
  {| From := From e; To := To e; Cc := Cc e; Bcc := Bcc e;
     e_Subject := e_Subject e; e_HTML := v;
     e_Headers := e_Headers e; e_Attachments := e_Attachments e |}.

Definition set_Headers (v : gmap string (list string)) (e : Email) : Email :=
  {| From := From e; To := To e; Cc := Cc e; Bcc := Bcc e;
     e_Subject := e_Subject e; e_HTML := e_HTML e;
     e_Headers := v; e_Attachments := e_Attachments e |}.

(** [e.Attach(bytes.NewBuffer(data), filename, contentType)] *)
Definition Attach (data : bytes) (filename contentType : string) (e : Email)
  : Email :=
  {| From := From e; To := To e; Cc := Cc e; Bcc := Bcc e;
     e_Subject := e_Subject e; e_HTML := e_HTML e;
     e_Headers := e_Headers e;
     e_Attachments := e_Attachments e ++
       [{| a_Filename := filename; a_ContentType := contentType;
           a_Content := data |}] |}.

Definition newline : string := String (Ascii.ascii_of_nat 10) EmptyString.

Definition DoEmail (n : Notification) (st : IncidentState) (c : Conf)
  : fn unit :=
  func (
    let e := NewEmail in
    let e := set_From (EmailFrom c) e in
    let e :=
      fold_left (fun e a => set_To (To e ++ [Address a]) e) (n_Email n) e in
    let e := set_Subject (string_of_bytes (EmailSubject st)) e in
    let e := set_HTML (EmailBody st) e in
    let e :=
      fold_left (fun e a => Attach (Data a) (Filename a) (ContentType a) e)
        (Attachments st) e in
    let ak := AlertKey st in
    let e :=
      set_Headers (Headers_Add "X-Bosun-Server" util_Hostname (e_Headers e))
        e in
    err ← invoke (Send e (SMTPHost c) (SMTPUsername c) (SMTPPassword c));
    match err with
    | Some err =>
        collect_Add "email.sent_failed" 1;;
        slog (slog_Errorf ("failed to send alert %v to %v %v" +:+ newline)
                [VString ak; VStrings (To e); VError err]);;
        return_ tt
    | None =>
        collect_Add "email.sent" 1;;
        slog (slog_Infof
          "relayed alert %v to %v sucessfully. Subject: %d bytes. Body: %d bytes."
          [VString ak; VStrings (To e);
           VInt (Z.of_nat (length (EmailSubject st)));
           VInt (Z.of_nat (length (EmailBody st)))])
    end).

(** ** [GetPayload], [DoPrint], [DoPost], [DoGet] *)

Definition GetPayload (n : Notification) (subject body : string) : bytes :=
  if n_UseBody n then bytes_of_string body else bytes_of_string subject.

Definition DoPrint (n : Notification) (payload : string) : fn unit :=
  func (slog (slog_Infoln [VString payload])).

(** The body that [DoPost] defers closing: [resp != nil && resp.Body != nil]. *)
Definition body_to_close (resp : option http_Response)
  : option io_ReadCloser :=
  match resp with
  | Some r => resp_Body r
  | None => None
  end.

Definition DoPost (n : Notification) (st : IncidentState) : fn unit :=
  func (
    let payload := GetPayload n (Subject st) (Body st) in
    let ak := AlertKey st in
    payload ←
      match n_Body n with
      | Some body =>
          let context :=
            if n_UseFullContext n then ctx_state st
            else ctx_string (string_of_bytes payload) in
          let (buf, err) := Execute body context in
          match err with
          | Some err => slog (slog_Errorln [VError err]);; return_ tt
          | None => mret buf
          end
      | None => mret payload
      end;
    post ← deref (n_Post n);
    '(resp, err) ←
      call (http_Post (URL_String post) (n_ContentType n) payload);
    let rest : stmt unit unit :=
      match err with
      | Some err => slog (slog_Error [VError err]);; return_ tt
      | None =>
          r ← deref resp;
          if 300 <=? StatusCode r then
            slog (slog_Errorln
              [VString "bad response on notification post:";
               VString (Status r)])
          else
            slog (slog_Infof
              "post notification successful for alert %s. Response code %d."
              [VString ak; VInt (StatusCode r)])
      end in
    match body_to_close resp with
    | Some b => defer (ReadCloser_Close b) rest
    | None => rest
    end).

Definition DoGet (n : Notification) (ak : string) : fn unit :=
  func (
    get ← deref (n_Get n);
    '(resp, err) ← call (http_Get (URL_String get));
    match err with
    | Some err => slog (slog_Error [VError err]);; return_ tt
    | None =>
        r ← deref resp;
        if 300 <=? StatusCode r then
          slog (slog_Error
            [VString "bad response on notification get:";
             VString (Status r)])
        else
          slog (slog_Infof
            "get notification successful for alert %s. Response code %d."
            [VString ak; VInt (StatusCode r)])
    end).

(** ** [Notify]

    [Notify] starts one goroutine for each channel of the notification
    and returns; the goroutines it starts, in the order of the [go]
    statements. *)
Inductive goroutine : Type :=
| go_DoEmail (st : IncidentState) (c : Conf)
| go_DoPost (st : IncidentState)
| go_DoGet (ak : string)
| go_DoPrint (payload : string).

Definition Notify (n : Notification) (st : IncidentState) (c : Conf)
  : list goroutine :=
  (if (0 <? length (n_Email n))%nat then [go_DoEmail st c] else []) ++
  (if not_nil (n_Post n) then [go_DoPost st] else []) ++
  (if not_nil (n_Get n) then [go_DoGet (AlertKey st)] else []) ++
  (if n_Print n then
     if n_UseBody n then
       [go_DoPrint ("Subject: " +:+ Subject st +:+ ", Body: " +:+ Body st)]
     else [go_DoPrint (Subject st)]
   else []).

(** What a goroutine runs. *)
Definition goroutine_body (n : Notification) (g : goroutine) : fn unit :=
  match g with
  | go_DoEmail st c => DoEmail n st c
  | go_DoPost st => DoPost n st
  | go_DoGet ak => DoGet n ak
  | go_DoPrint payload => DoPrint n payload
  end.

End Program.

(** ** Reading a trace *)

(** The call of an event, without its arguments. *)
Inductive verb : Type :=
| Dial | Hello | Extension | StartTLS | Auth | Mail | Rcpt | DataCmd
| Write | WriterClose | Quit | Close | Post | Get | BodyClose.

#[global] Instance verb_eq_dec : EqDecision verb.
Proof. solve_decision. Defined.

Definition verb_of (ev : event) : verb :=
  match ev with
  | Ev c _ =>
      match c with
      | smtp_Dial _ => Dial
      | Client_Hello _ => Hello
      | Client_Extension _ => Extension
      | Client_StartTLS _ => StartTLS
      | Client_Auth _ => Auth
      | Client_Mail _ => Mail
      | Client_Rcpt _ => Rcpt
      | Client_Data => DataCmd
      | Writer_Write _ => Write
      | Writer_Close => WriterClose
      | Client_Quit => Quit
      | Client_Close => Close
      | http_Post _ _ _ => Post
      | http_Get _ => Get
      | ReadCloser_Close _ => BodyClose
      end
  end.

(** The error a call returned, nil for [Client.Extension], which returns
    none. *)
Definition error_of (ev : event) : option error :=
  match ev with
  | Ev c r =>
      match c in netE X return X -> option error with
      | Client_Extension _ => fun _ => None
      | Writer_Write _ => fun r => r.2
      | http_Post _ _ _ => fun r => r.2
      | http_Get _ => fun r => r.2
      | smtp_Dial _ | Client_Hello _ | Client_StartTLS _ | Client_Auth _
      | Client_Mail _ | Client_Rcpt _ | Client_Data | Writer_Close
      | Client_Quit | Client_Close | ReadCloser_Close _ => fun r => r
      end r
  end.

(** The event is [Client.Extension("STARTTLS")] answered with true: the
    relay advertises STARTTLS. *)
Definition advertises_STARTTLS (ev : event) : bool :=
  match ev with
  | Ev c r =>
      match c in netE X return X -> bool with
      | Client_Extension ext => fun r => String.eqb ext "STARTTLS" && r.1
      | _ => fun _ => false
      end r
  end.

(** The recipient of a [Client.Rcpt] call. *)
Definition rcpt_of (ev : event) : option string :=
  match ev with
  | Ev c _ =>
      match c with
      | Client_Rcpt a => Some a
      | _ => None
      end
  end.

(** The HTTP response of a [http.Post] or [http.Get] call. *)
Definition response_of (ev : event) : option http_Response :=
  match ev with
  | Ev c r =>
      match c in netE X return X -> option http_Response with
      | http_Post _ _ _ => fun r => r.1
      | http_Get _ => fun r => r.1
      | _ => fun _ => None
      end r
  end.

(** The calls of a given verb in a trace. *)
Definition calls_of (v : verb) (evs : list event) : list event :=
  filter (fun ev => verb_of ev = v) evs.

(** The calls made between two worlds. *)
Definition calls_since {Env : Type} (w w' : World Env) : list event :=
  drop (length (trace w)) (trace w').

(** A recipient accepted by the relay. *)
Definition rcpt_ok (a : string) : event := Ev (Client_Rcpt a) None.

(** ** The sessions of [SendMail]

    The calls [SendMail] can make, in order, with the error it returns:
    one case for each way out of the function. *)
Section Sessions.

Variables (addr username password from : string).
Variables (to : list string) (msg : bytes).

(** From [Client.Extension] to the end of the negotiation, none of the
    calls having stopped the session. *)
Inductive negotiation : list event -> Prop :=
| neg_plain params :
    negotiation [Ev (Client_Extension "STARTTLS") (false, params)]
| neg_tls params :
    len_gt_0 username || len_gt_0 password = false ->
    negotiation
      [Ev (Client_Extension "STARTTLS") (true, params);
       Ev (Client_StartTLS {| InsecureSkipVerify := true |}) None]
| neg_tls_auth params host r :
    len_gt_0 username || len_gt_0 password = true ->
    strings_Split addr ":" !! 0%nat = Some host ->
    negotiation
      [Ev (Client_Extension "STARTTLS") (true, params);
       Ev (Client_StartTLS {| InsecureSkipVerify := true |}) None;
       Ev (Client_Auth (PlainAuth EmptyString username password host)) r].

(** From [Client.Mail] to the return, with the returned error. *)
Inductive delivery : list event -> option error -> Prop :=
| del_mail e :
    delivery [Ev (Client_Mail from) (Some e)] (Some e)
| del_rcpt pre a post e :
    to = pre ++ a :: post ->
    delivery
      (Ev (Client_Mail from) None :: map rcpt_ok pre ++
       [Ev (Client_Rcpt a) (Some e)])
      (Some e)
| del_data e :
    delivery
      (Ev (Client_Mail from) None :: map rcpt_ok to ++
       [Ev Client_Data (Some e)])
      (Some e)
| del_write n e :
    delivery
      (Ev (Client_Mail from) None :: map rcpt_ok to ++
       [Ev Client_Data None; Ev (Writer_Write msg) (n, Some e)])
      (Some e)
| del_close n e :
    delivery
      (Ev (Client_Mail from) None :: map rcpt_ok to ++
       [Ev Client_Data None; Ev (Writer_Write msg) (n, None);
        Ev Writer_Close (Some e)])
      (Some e)
| del_quit n r :
    delivery
      (Ev (Client_Mail from) None :: map rcpt_ok to ++
       [Ev Client_Data None; Ev (Writer_Write msg) (n, None);
        Ev Writer_Close None; Ev Client_Quit r])
      r.

Inductive session : list event -> option error -> Prop :=
| ses_dial e :
    session [Ev (smtp_Dial addr) (Some e)] (Some e)
| ses_hello e r :
    session
      [Ev (smtp_Dial addr) None; Ev (Client_Hello "localhost") (Some e);
       Ev Client_Close r]
      (Some e)
| ses_starttls params e r :
    session
      [Ev (smtp_Dial addr) None; Ev (Client_Hello "localhost") None;
       Ev (Client_Extension "STARTTLS") (true, params);
       Ev (Client_StartTLS {| InsecureSkipVerify := true |}) (Some e);
       Ev Client_Close r]
      (Some e)
| ses_delivery neg del res r :
    negotiation neg ->
    delivery del res ->
    session
      ([Ev (smtp_Dial addr) None; Ev (Client_Hello "localhost") None] ++
       neg ++ del ++ [Ev Client_Close r])
      res.

End Sessions.

(** The recipients declared by the [Client.Rcpt] calls of a trace. *)
Definition recipients_of (evs : list event) : list string :=
  omap rcpt_of evs.

(** The event is a [smtp.Dial] that succeeded: the connection is
    established. *)
Definition connected (ev : event) : bool :=
  bool_decide (verb_of ev = Dial) && negb (not_nil (error_of ev)).

(** The body sent by a [http.Post] call. *)
Definition payload_of (ev : event) : option bytes :=
  match ev with
  | Ev c _ =>
      match c with
      | http_Post _ _ body => Some body
      | _ => None
      end
  end.

(** The call returned no error. *)
Definition succeeded (ev : event) : bool := negb (not_nil (error_of ev)).

(** The relay never answered that it advertises STARTTLS. *)
Definition no_STARTTLS (evs : list event) : bool :=
  forallb (fun ev => negb (advertises_STARTTLS ev)) evs.

(** The event is a [Client.StartTLS] that succeeded. *)
Definition tls_upgraded (ev : event) : bool :=
  bool_decide (verb_of ev = StartTLS) && succeeded ev.

(** The event is a [Client.Rcpt] that the relay answered with [e]. *)
Definition rcpt_rejected (e : error) (ev : event) : Prop :=
  verb_of ev = Rcpt ∧ error_of ev = Some e.

(** Every call succeeded, but for the deferred [Client.Close], whose
    result [SendMail] drops. *)
Definition all_succeeded (evs : list event) : bool :=
  forallb (fun ev => bool_decide (verb_of ev = Close) || succeeded ev) evs.





(** ** A scripted relay and sample notifications

    A concrete outside world, on which the definitions run: a relay that
    accepts every call but for the recipients it refuses, and an HTTP
    server that answers every request with one status. *)
Module Scenario.

Record script : Type := {
  advertises : bool;             (* STARTTLS is advertised *)
  refused : list string;         (* the recipients refused at RCPT *)
  auth_error : option error;     (* what [Client.Auth] returns *)
  http_status : Z;               (* the status of every HTTP response *)
  http_status_line : string;
}.

(** The state counts the calls. *)
Definition answers (cfg : script) (X : Type) (s : nat) (e : netE X)
  : nat * X :=
  match e in netE X return nat * X with
  | smtp_Dial _ => (S s, None)
  | Client_Hello _ => (S s, None)
  | Client_Extension ext =>
      (S s, (advertises cfg && String.eqb ext "STARTTLS", EmptyString))
  | Client_StartTLS _ => (S s, None)
  | Client_Auth _ => (S s, auth_error cfg)
  | Client_Mail _ => (S s, None)
  | Client_Rcpt a =>
      (S s,
       if bool_decide (a ∈ refused cfg)
       then Some (errors_New "550 mailbox unavailable") else None)
  | Client_Data => (S s, None)
  | Writer_Write p => (S s, (Z.of_nat (length p), None))
  | Writer_Close => (S s, None)
  | Client_Quit => (S s, None)
  | Client_Close => (S s, None)
  | http_Post _ _ _ | http_Get _ =>
      (S s,
       (Some {| Status := http_status_line cfg;
                StatusCode := http_status cfg;
                resp_Body := Some 0%nat |}, None))
  | ReadCloser_Close _ => (S s, None)
  end.

Definition plain_relay : script :=
  {| advertises := false; refused := ["c@y.com"]; auth_error := None;
     http_status := 404; http_status_line := "404 Not Found" |}.

Definition tls_relay : script :=
  {| advertises := true; refused := [];
     auth_error := Some (errors_New "535 authentication failed");
     http_status := 200; http_status_line := "200 OK" |}.

Definition open_relay : script :=
  {| advertises := false; refused := []; auth_error := None;
     http_status := 200; http_status_line := "200 OK" |}.

Definition start : World nat := mkWorld 0%nat [] [] ∅.

(** A stand-in for [mail.ParseAddress] on bare addresses: one [@] with
    something on each side. *)
Definition parse (s : string) : mail_Address + error :=
  match strings_Split s "@" with
  | [l; d] =>
      if len_gt_0 l && len_gt_0 d
      then inl {| Name := EmptyString; Address := s |}
      else inr (errors_New "mail: invalid address")
  | _ => inr (errors_New "mail: missing '@' or angle-addr")
  end.

(** A stand-in for [Email.Bytes]: the HTML body alone. *)
Definition message (e : Email) : bytes + error := inl (e_HTML e).

Definition mail_to (to : list string) : Email :=
  {| From := "a@x.com"; To := to; Cc := []; Bcc := [];
     e_Subject := "disk full"; e_HTML := bytes_of_string "disk is full";
     e_Headers := ∅; e_Attachments := [] |}.

Definition mail_cc : Email :=
  {| From := "a@x.com"; To := ["b@y.com"]; Cc := ["d@y.com"; "b@y.com"];
     Bcc := ["e@y.com"];
     e_Subject := "disk full"; e_HTML := bytes_of_string "disk is full";
     e_Headers := ∅; e_Attachments := [] |}.

Definition mail_from (from : string) : Email :=
  {| From := from; To := ["b@y.com"]; Cc := []; Bcc := [];
     e_Subject := "disk full"; e_HTML := bytes_of_string "disk is full";
     e_Headers := ∅; e_Attachments := [] |}.

Definition incident : IncidentState :=
  {| AlertKey := "disk{host=a}"; Subject := "disk"; Body := "disk full";
     EmailSubject := bytes_of_string "disk"; EmailBody := [];
     Attachments := [] |}.

(** A body template that writes [Alert: ] and then its context, the
    subject of the incident when the context is the incident. *)
Definition alert_template : Template :=
  {| Execute := fun ctx =>
       match ctx with
       | ctx_string s => (bytes_of_string ("Alert: " +:+ s), None)
       | ctx_state st => (bytes_of_string ("Alert: " +:+ Subject st), None)
       end |}.

Definition hook : Notification :=
  {| n_Email := []; n_Post := Some {| URL_String := "http://hook/" |};
     n_Get := None; n_Print := false; n_UseBody := true;
     n_Body := Some alert_template; n_ContentType := "text/plain";
     n_UseFullContext := false |}.

End Scenario.


(** ** More readings of a trace *)

(** The call may fail without ending the session: [Client.Auth], whose
    error [SendMail] drops, and the deferred [Client.Close]. *)
Definition error_dropped (ev : event) : bool :=
  bool_decide (verb_of ev = Auth) || bool_decide (verb_of ev = Close).

(** The session goes on after the call: it succeeded, or it is a
    [Client.Auth]. *)
Definition passed (ev : event) : Prop :=
  verb_of ev = Auth ∨ error_of ev = None.

(** Every call whose error [SendMail] looks at succeeded. *)
Definition ran_clean (evs : list event) : bool :=
  forallb (fun ev => error_dropped ev || succeeded ev) evs.

(** The colon. *)
Definition colon : Ascii.ascii :=
  Ascii.Ascii false true false true true true false false.

(** The character occurs in the string. *)
Fixpoint has_char (c : Ascii.ascii) (s : string) : bool :=
  match s with
  | EmptyString => false
  | String c' s' => bool_decide (c' = c) || has_char c s'
  end.

(** The value of a counter, zero when it was never added to. *)
Definition counter (c : gmap string Z) (metric : string) : Z :=
  default 0 (c !! metric).

(** The mail that [DoEmail] builds. *)
Definition built_mail (hostname : string) (n : Notification)
    (st : IncidentState) (c : Conf) (e : Email) : Prop :=
  From e = EmailFrom c ∧
  To e = map Address (n_Email n) ∧ Cc e = [] ∧ Bcc e = [] ∧
  e_Subject e = string_of_bytes (EmailSubject st) ∧
  e_HTML e = EmailBody st ∧
  e_Headers e = {[ "X-Bosun-Server" := [hostname] ]} ∧
  e_Attachments e =
    map (fun a => {| a_Filename := Filename a;
                     a_ContentType := ContentType a;
                     a_Content := Data a |}) (Attachments st).

(** ** Relays that fail *)
Module Faults.

(** The scripted relay, but every call of the verb [v] returns [err]. *)
Definition fails_at (v : verb) (err : error) (cfg : Scenario.script)
    (X : Type) (s : nat) (e : netE X) : nat * X :=
  match e in netE X return nat * X -> nat * X with
  | smtp_Dial _ => fun sr => if decide (v = Dial) then (sr.1, Some err) else sr
  | Client_Hello _ =>
      fun sr => if decide (v = Hello) then (sr.1, Some err) else sr
  | Client_Extension _ => fun sr => sr
  | Client_StartTLS _ =>
      fun sr => if decide (v = StartTLS) then (sr.1, Some err) else sr
  | Client_Auth _ =>
      fun sr => if decide (v = Auth) then (sr.1, Some err) else sr
  | Client_Mail _ =>
      fun sr => if decide (v = Mail) then (sr.1, Some err) else sr
  | Client_Rcpt _ =>
      fun sr => if decide (v = Rcpt) then (sr.1, Some err) else sr
  | Client_Data =>
      fun sr => if decide (v = DataCmd) then (sr.1, Some err) else sr
  | Writer_Write _ =>
      fun sr => if decide (v = Write) then (sr.1, (0, Some err)) else sr
  | Writer_Close =>
      fun sr => if decide (v = WriterClose) then (sr.1, Some err) else sr
  | Client_Quit =>
      fun sr => if decide (v = Quit) then (sr.1, Some err) else sr
  | Client_Close =>
      fun sr => if decide (v = Close) then (sr.1, Some err) else sr
  | http_Post _ _ _ =>
      fun sr => if decide (v = Post) then (sr.1, (sr.2.1, Some err)) else sr
  | http_Get _ =>
      fun sr => if decide (v = Get) then (sr.1, (sr.2.1, Some err)) else sr
  | ReadCloser_Close _ =>
      fun sr => if decide (v = BodyClose) then (sr.1, Some err) else sr
  end (Scenario.answers cfg X s e).

Definition refused : error := errors_New "dial tcp: connection refused".

Definition conf : Conf :=
  {| EmailFrom := "bosun@x.com"; SMTPHost := "relay:25";
     SMTPUsername := EmptyString; SMTPPassword := EmptyString |}.

Definition oncall : Notification :=
  {| n_Email := [{| Name := "B"; Address := "b@y.com" |};
                 {| Name := "C"; Address := "c@y.com" |}];
     n_Post := None;
     n_Get := Some {| URL_String := "http://hook/ping" |};
     n_Print := true; n_UseBody := false; n_Body := None;
     n_ContentType := EmptyString; n_UseFullContext := false |}.

Definition raw_hook : Notification :=
  {| n_Email := []; n_Post := Some {| URL_String := "http://hook/" |};
     n_Get := None; n_Print := false; n_UseBody := true;
     n_Body := None; n_ContentType := "text/plain";
     n_UseFullContext := false |}.

Definition full_hook : Notification :=
  {| n_Email := []; n_Post := Some {| URL_String := "http://hook/" |};
     n_Get := None; n_Print := false; n_UseBody := true;
     n_Body := Some Scenario.alert_template; n_ContentType := "text/plain";
     n_UseFullContext := true |}.

End Faults.


(** * Properties *)

(** ** [strings.Split] never returns an empty slice *)

Lemma split_go_cons sep skip acc s : ∃ h t, split_go sep skip acc s = h :: t.
Proof.
  revert skip acc. induction s as [|c s IH]; intros skip acc; cbn [split_go].
  - eauto.
  - destruct skip as [|k]; [|apply IH].
    cbn [split_go].
    destruct (String.prefix sep (String c s)); [eauto | apply IH].
Qed.

Lemma strings_Split_first s sep : ∃ h, strings_Split s sep !! 0%nat = Some h.
Proof.
  unfold strings_Split. destruct (split_go_cons sep 0 EmptyString s) as (h & t & ->).
  eauto.
Qed.

(** The host part of a relay address, and an address without a port. *)
Example strings_Split_host_port :
  strings_Split "relay:25" ":" = ["relay"; "25"] ∧
  strings_Split "relay" ":" = ["relay"].
Proof. split; reflexivity. Qed.

(** ** Running statements *)

Ltac run_unfold :=
  repeat (unfold mbind, stmt_bind, mret, stmt_ret, call, defer, skip,
            return_, func, invoke, index, deref, panic; simpl).

Lemma calls_since_app {Env : Type} (w w' : World Env) evs :
  trace w' = trace w ++ evs → calls_since w w' = evs.
Proof. intros H. unfold calls_since. rewrite H. apply drop_app_length. Qed.

Lemma calls_since_refl {Env : Type} (w : World Env) : calls_since w w = [].
Proof. unfold calls_since. apply drop_all. Qed.

Lemma calls_since_snoc {Env : Type} (w : World Env) s evs l c :
  calls_since w (mkWorld s (trace w ++ evs) l c) = evs.
Proof. unfold calls_since. simpl. apply drop_app_length. Qed.

Lemma calls_since_same {Env : Type} (w : World Env) s l c :
  calls_since w (mkWorld s (trace w) l c) = [].
Proof. unfold calls_since. simpl. apply drop_all. Qed.

Lemma string_of_bytes_of_string s : string_of_bytes (bytes_of_string s) = s.
Proof. apply String.string_of_list_byte_of_string. Qed.

Section Runs.
Context {Env : Type} (respond : ∀ X : Type, Env → netE X → Env * X).

Lemma bind_run {R A B} (m : stmt R A) (f : A → stmt R B) (w : World Env) :
  (m ≫= f) w =
  match m w with
  | (Next a, w') => f a w'
  | (Return r, w') => (Return r, w')
  | (Panic, w') => (Panic, w')
  end.
Proof. reflexivity. Qed.

Lemma func_invoke {R} (f : fn R) (w : World Env) :
  func (r ← invoke f; return_ r) w = f w.
Proof.
  unfold func, invoke, mbind, stmt_bind, return_.
  by destruct (f w) as [[r|] w'].
Qed.

(** The loop over the recipients: every recipient is accepted, or the
    loop returns at the first one that is refused. *)
Lemma for_range_Rcpt (body : string → stmt (option error) unit)
    (to : list string) (w : World Env) :
  (∀ a w,
     body a w =
     let (s, r) := respond _ (env w) (Client_Rcpt a) in
     (match r with Some _ => Return r | None => Next tt end,
      mkWorld s (trace w ++ [Ev (Client_Rcpt a) r]) (log w) (counters w))) →
  (∃ w', for_range to body w = (Next tt, w') ∧
         trace w' = trace w ++ map rcpt_ok to ∧
         log w' = log w ∧ counters w' = counters w) ∨
  (∃ w' pre a post e, to = pre ++ a :: post ∧
      for_range to body w = (Return (Some e), w') ∧
      trace w' = trace w ++ map rcpt_ok pre ++ [Ev (Client_Rcpt a) (Some e)] ∧
      log w' = log w ∧ counters w' = counters w).
Proof.
  intros Hbody. revert w. induction to as [|a l IH]; intros w; cbn [for_range].
  - left. exists w. rewrite app_nil_r. done.
  - rewrite bind_run, (Hbody a w).
    destruct (respond _ (env w) (Client_Rcpt a)) as [s [e|]].
    + right. eexists _, [], a, l, e. done.
    + match goal with |- context [for_range l body ?w1] =>
        destruct (IH w1) as [(w' & Hr & Ht & Hl & Hc)
                            |(w' & pre & b & post & e & -> & Hr & Ht & Hl & Hc)]
      end; rewrite Hr; simpl in *.
      * left. exists w'. rewrite Ht, <- app_assoc. done.
      * right. exists w', (a :: pre), b, post, e.
        rewrite Ht, <- app_assoc. done.
Qed.

Ltac step :=
  match goal with
  | |- context [respond ?X ?s ?e] =>
      let r := fresh "r" in let s' := fresh "s" in
      destruct (respond X s e) as [s' r]; run_unfold
  end.

Lemma ses_delivery_eq addr u p from to msg neg del res r evs :
  negotiation addr u p neg →
  delivery from to msg del res →
  evs = [Ev (smtp_Dial addr) None; Ev (Client_Hello "localhost") None] ++
        neg ++ del ++ [Ev Client_Close r] →
  session addr u p from to msg evs res.
Proof. intros Hn Hd ->. by constructor. Qed.

Ltac ends :=
  eexists _, _, _; (split; [reflexivity|]); simpl;
  repeat match goal with H : trace _ = _ |- _ => rewrite H; clear H end;
  rewrite <- ?app_assoc;
  (split; [reflexivity|]);
  (split; [assumption || reflexivity|]);
  (split; [assumption || reflexivity|]);
  first
    [ by econstructor
    | eapply ses_delivery_eq;
      [ econstructor; eassumption
      | econstructor; try eassumption; try reflexivity
      | simpl; rewrite <- ?app_assoc; reflexivity ] ].

Ltac err_or_go :=
  match goal with
  | r : option error |- _ => destruct r as [?e|]; simpl; [step; ends|]
  | r : (Z * option error)%type |- _ =>
      destruct r as [?n [?e|]]; simpl; [step; ends|]
  end.

Ltac deliver to :=
  step;
  match goal with r : option error |- _ => destruct r as [?e|]; simpl end;
  [ step; ends | ];
  match goal with
  | |- context [for_range to ?body ?w1] =>
      let Hr := fresh "Hr" in let Ht := fresh "Ht" in
      destruct (for_range_Rcpt body to w1)
        as [(?w & Hr & Ht & ?Hl & ?Hc)
           |(?w & ?pre & ?a & ?post & ?e & ?Hto & Hr & Ht & ?Hl & ?Hc)];
      [ intros ?a ?w; simpl;
        destruct (respond _ (env _) (Client_Rcpt _)) as [? [?|]]; reflexivity
      | | ];
      rewrite Hr; simpl in *
  end;
  [ step; err_or_go; step; err_or_go; step; err_or_go; step; step; ends
  | step; ends ].


(** Every run of [SendMail] returns, and its calls make a session. *)

Lemma SendMail_run addr u p from to msg (w : World Env) :
  ∃ res w' evs,
    SendMail respond addr u p from to msg w = (Returned res, w') ∧
    trace w' = trace w ++ evs ∧ log w' = log w ∧ counters w' = counters w ∧
    session addr u p from to msg evs res.
Proof.
  unfold SendMail. run_unfold.
  step. destruct r as [e|]; simpl; [ends|].
  step. destruct r as [e|]; simpl; [step; ends|].
  step. destruct r as [[|] params]; simpl.
  - step. destruct r as [e|]; simpl; [step; ends|].
    destruct (len_gt_0 u || len_gt_0 p) eqn:Hcred; simpl.
    + destruct (strings_Split_first addr ":") as [host Hhost]. rewrite Hhost. simpl.
      step. deliver to.
    + deliver to.
  - deliver to.
Qed.


Lemma SendMail_session addr u p from to msg (w w' : World Env) res :
  SendMail respond addr u p from to msg w = (res, w') →
  ∃ err, res = Returned err ∧
    session addr u p from to msg (calls_since w w') err ∧
    trace w' = trace w ++ calls_since w w' ∧
    log w' = log w ∧ counters w' = counters w.
Proof.
  intros Hrun.
  destruct (SendMail_run addr u p from to msg w)
    as (err & w1 & evs & Hrun' & Ht & Hl & Hc & Hs).
  rewrite Hrun in Hrun'. injection Hrun' as -> ->.
  exists err. rewrite (calls_since_app _ _ _ Ht). done.
Qed.
End Runs.

(** ** Reading the sessions *)

Lemma calls_of_app v l1 l2 : calls_of v (l1 ++ l2) = calls_of v l1 ++ calls_of v l2.
Proof. apply filter_app. Qed.

Lemma calls_of_rcpt_ok v l : v ≠ Rcpt → calls_of v (map rcpt_ok l) = [].
Proof.
  intros Hv. induction l as [|a l IH]; [done|].
  simpl. unfold calls_of in *. rewrite filter_cons_False; [done|].
  simpl. congruence.
Qed.

Lemma calls_of_rcpt_ok_Rcpt l : calls_of Rcpt (map rcpt_ok l) = map rcpt_ok l.
Proof.
  induction l as [|a l IH]; [done|].
  simpl. unfold calls_of in *. rewrite filter_cons_True; [|done]. by rewrite IH.
Qed.

Lemma omap_rcpt_ok l : omap rcpt_of (map rcpt_ok l) = l.
Proof. induction l as [|a l IH]; [done|]. simpl. f_equal. apply IH. Qed.

Lemma no_STARTTLS_rcpt_ok l : no_STARTTLS (map rcpt_ok l) = true.
Proof. induction l; [done|]. done. Qed.


Lemma not_upgraded_rcpt_ok l : existsb tls_upgraded (map rcpt_ok l) = false.
Proof. induction l; [done|]. done. Qed.

Lemma all_succeeded_rcpt_ok l : all_succeeded (map rcpt_ok l) = true.
Proof. induction l; [done|]. done. Qed.

Lemma calls_of_cons v ev l :
  calls_of v (ev :: l) =
  if decide (verb_of ev = v) then ev :: calls_of v l else calls_of v l.
Proof. reflexivity. Qed.

Ltac calls_norm :=
  cbn [app];
  repeat first
    [ rewrite calls_of_app
    | rewrite calls_of_cons
    | rewrite calls_of_rcpt_ok by done
    | rewrite calls_of_rcpt_ok_Rcpt ];
  change (calls_of _ []) with (@nil event) in *;
  simpl.

Lemma recipients_of_app l1 l2 :
  recipients_of (l1 ++ l2) = recipients_of l1 ++ recipients_of l2.
Proof. apply omap_app. Qed.

Lemma recipients_of_rcpt_ok l : recipients_of (map rcpt_ok l) = l.
Proof. apply omap_rcpt_ok. Qed.

Lemma rcpt_ok_not_rejected l ev e : ev ∈ map rcpt_ok l → ¬ rcpt_rejected e ev.
Proof.
  intros (a & -> & _)%list_elem_of_fmap [_ H]. discriminate.
Qed.

Section Shapes.
Variables (addr u p from : string) (to : list string) (msg : bytes).

Lemma negotiation_calls_of v neg :
  negotiation addr u p neg →
  v ≠ Extension → v ≠ StartTLS → v ≠ Auth → calls_of v neg = [].
Proof.
  intros [] ???; calls_norm; repeat case_decide; congruence.
Qed.

Lemma delivery_calls_of v del err :
  delivery from to msg del err →
  v ≠ Mail → v ≠ Rcpt → v ≠ DataCmd → v ≠ Write → v ≠ WriterClose →
  v ≠ Quit → calls_of v del = [].
Proof.
  intros [] ??????; calls_norm; repeat case_decide; congruence.
Qed.

(** A session that got its connection closes it once, at the end. *)
Lemma session_Close evs err :
  session addr u p from to msg evs err →
  existsb connected evs = true →
  length (calls_of Close evs) = 1%nat ∧
  ∃ r, last evs = Some (Ev Client_Close r).
Proof.
  intros [ e | e r | params e r | neg del res r Hn Hd ] Hhead.
  - discriminate.
  - split; [reflexivity|]. by exists r.
  - split; [reflexivity|]. by exists r.
  - split.
    + calls_norm.
      rewrite (negotiation_calls_of Close neg), (delivery_calls_of Close del res)
        by done.
      reflexivity.
    + exists r. rewrite !app_assoc. apply last_snoc.
Qed.

Lemma session_no_Auth evs err :
  session addr u p from to msg evs err →
  no_STARTTLS evs = true → calls_of Auth evs = [].
Proof.
  intros [ e | e r | params e r | neg del res r Hn Hd ] Hno; try done.
  calls_norm. rewrite (delivery_calls_of Auth del res) by done.
  by destruct Hn.
Qed.


Lemma delivery_not_upgraded del err :
  delivery from to msg del err → existsb tls_upgraded del = false.
Proof.
  intros []; cbn [app existsb]; rewrite ?existsb_app, ?not_upgraded_rcpt_ok;
    reflexivity.
Qed.


(** Every delivery starts with MAIL FROM, its only one. *)
Lemma delivery_Mail del err :
  delivery from to msg del err →
  ∃ r rest, del = Ev (Client_Mail from) r :: rest ∧
            calls_of Mail del = [Ev (Client_Mail from) r].
Proof.
  intros []; eexists _, _; (split; [reflexivity|]); by calls_norm.
Qed.


Lemma session_plain evs err :
  session addr u p from to msg evs err →
  no_STARTTLS evs = true → all_succeeded evs = true →
  err = None ∧
  ∃ params n r,
    evs =
    [Ev (smtp_Dial addr) None; Ev (Client_Hello "localhost") None;
     Ev (Client_Extension "STARTTLS") (false, params);
     Ev (Client_Mail from) None] ++ map rcpt_ok to ++
    [Ev Client_Data None; Ev (Writer_Write msg) (n, None);
     Ev Writer_Close None; Ev Client_Quit None; Ev Client_Close r].
Proof.
  intros [ e | e r | params e r | neg del res r Hn Hd ] Hno Hok; try done.
  destruct Hn as [ params | params Hcred | params host ra Hcred Hhost ];
    try done.
  revert Hok. unfold all_succeeded. cbn [app forallb]. rewrite forallb_app.
  destruct Hd as [ e | pre a post e Hto | e | n e | n e | n rq ];
    cbn [app forallb]; rewrite ?forallb_app; simpl;
    rewrite ?andb_false_r; try done.
  destruct rq; simpl; rewrite ?andb_false_r; try done.
  intros _. split; [done|]. exists params, n, r.
  by rewrite <- app_assoc.
Qed.


Lemma negotiation_recipients neg :
  negotiation addr u p neg → recipients_of neg = [].
Proof. by intros []. Qed.

Lemma negotiation_not_rejected neg ev e :
  negotiation addr u p neg → ev ∈ neg → ¬ rcpt_rejected e ev.
Proof.
  intros [] Hin [Hv _]; rewrite ?elem_of_cons, elem_of_nil in Hin;
    destruct_or!; subst; done.
Qed.

(** The recipients declared are the first of the list, all of them when
    the session gets to DATA. *)
Lemma delivery_recipients del err :
  delivery from to msg del err →
  recipients_of del `prefix_of` to ∧
  (calls_of DataCmd del ≠ [] → recipients_of del = to).
Proof.
  intros [ e | pre a post e -> | e | n e | n e | n rq ];
    change (recipients_of (?ev :: ?l)) with (recipients_of l);
    rewrite ?recipients_of_app, ?recipients_of_rcpt_ok; simpl;
    rewrite ?app_nil_r.
  - split; [apply prefix_nil|]. by calls_norm.
  - split.
    + rewrite (cons_middle a pre post), app_assoc. by apply prefix_app_r.
    + calls_norm. done.
  - done.
  - done.
  - done.
  - done.
Qed.

Lemma delivery_rejected del err ev e :
  delivery from to msg del err → ev ∈ del → rcpt_rejected e ev →
  err = Some e ∧ calls_of DataCmd del = [] ∧
  ∃ pre a post before,
    to = pre ++ a :: post ∧ ev = Ev (Client_Rcpt a) (Some e) ∧
    recipients_of del = pre ++ [a] ∧ del = before ++ [ev].
Proof.
  intros [ e' | pre a post e' Hto | e' | n e' | n e' | n rq ] Hin Hrej.
  2: {
    rewrite elem_of_cons, elem_of_app, elem_of_cons, elem_of_nil in Hin.
    destruct Hin as [->|[Hin| [->|[]]]].
    - by destruct Hrej.
    - by apply (rcpt_ok_not_rejected _ _ _ Hin) in Hrej.
    - destruct Hrej as [_ [= ->]]. split; [done|]. split; [by calls_norm|].
      exists pre, a, post, (Ev (Client_Mail from) None :: map rcpt_ok pre).
      split; [done|]. split; [done|]. split; [|done].
      change (recipients_of (?ev :: ?l)) with (recipients_of l).
      by rewrite recipients_of_app, recipients_of_rcpt_ok. }
  all: exfalso;
    rewrite ?elem_of_cons, ?elem_of_app, ?elem_of_cons, ?elem_of_nil in Hin;
    destruct_or!; subst;
    try (by eapply rcpt_ok_not_rejected in Hrej);
    by destruct Hrej.
Qed.

Lemma session_rejected evs err ev e :
  session addr u p from to msg evs err → ev ∈ evs → rcpt_rejected e ev →
  err = Some e ∧ calls_of DataCmd evs = [] ∧
  ∃ pre a post before r,
    to = pre ++ a :: post ∧ ev = Ev (Client_Rcpt a) (Some e) ∧
    recipients_of evs = pre ++ [a] ∧
    evs = before ++ [ev; Ev Client_Close r].
Proof.
  intros [ e' | e' r | params e' r | neg del res r Hn Hd ] Hin Hrej.
  1-3: exfalso; rewrite ?elem_of_cons, elem_of_nil in Hin;
       destruct_or!; subst; by destruct Hrej.
  rewrite !elem_of_app, !elem_of_cons, !elem_of_nil in Hin.
  destruct Hin as [[->|[->|[]]]|[Hin|[Hin|[->|[]]]]];
    try (by destruct Hrej).
  { by eapply negotiation_not_rejected in Hrej. }
  destruct (delivery_rejected _ _ _ _ Hd Hin Hrej)
    as (-> & Hdata & pre & a & post & before & Hto & -> & Hrcpt & Hdel).
  split; [done|]. split.
  - calls_norm. by rewrite (negotiation_calls_of DataCmd neg), Hdata.
  - exists pre, a, post,
      ([Ev (smtp_Dial addr) None; Ev (Client_Hello "localhost") None] ++
       neg ++ before), r.
    split; [done|]. split; [done|]. split.
    + rewrite !recipients_of_app, Hrcpt, (negotiation_recipients neg Hn).
      simpl. by rewrite app_nil_r.
    + rewrite Hdel, <- !app_assoc. done.
Qed.

Lemma session_recipients evs err :
  session addr u p from to msg evs err →
  recipients_of evs `prefix_of` to ∧
  (calls_of DataCmd evs ≠ [] → recipients_of evs = to).
Proof.
  intros [ e' | e' r | params e' r | neg del res r Hn Hd ].
  1-3: split; [apply prefix_nil|done].
  rewrite !recipients_of_app, (negotiation_recipients neg Hn).
  destruct (delivery_recipients _ _ Hd) as [Hpre Hall].
  change (recipients_of [_;_]) with (@nil string).
  change (recipients_of [_]) with (@nil string).
  rewrite app_nil_r. simpl. split; [done|].
  calls_norm. rewrite (negotiation_calls_of DataCmd neg) by done.
  rewrite app_nil_r. done.
Qed.
End Shapes.


(** ** What [Client.Auth] returns is dropped

    [SendMail] run against two outside worlds that differ only in the
    error [Client.Auth] returns ends the same way. *)
Section Simulation.
Context {Env : Type} (respond : ∀ X : Type, Env → netE X → Env * X).
Context (g : Env → smtp_Auth → option error).













End Simulation.

Ltac crunch respond :=
  repeat (simpl;
    match goal with
    | |- context [respond ?X ?s ?e] => destruct (respond X s e) as [? ?]
    | |- context [match ?x with _ => _ end] => is_var x; destruct x
    | |- context [if ?b then _ else _] => destruct b eqn:?
    end);
  simpl.

(** ** [Send] and [DoEmail] *)
Section Sending.
Context {Env : Type} (respond : ∀ X : Type, Env → netE X → Env * X).
Context (parse : string → mail_Address + error).
Context (message : Email → bytes + error).

Lemma merged_recipients (e : Email) :
  (([] ++ To e) ++ Cc e) ++ Bcc e = To e ++ Cc e ++ Bcc e.
Proof. by rewrite app_nil_l, app_assoc. Qed.

Lemma Send_unfold e addr u p (w : World Env) :
  Send respond parse message e addr u p w =
  if String.eqb (From e) EmptyString ||
     (length (To e ++ Cc e ++ Bcc e) =? 0)%nat
  then (Returned (Some (errors_New
          "Must specify at least one From address and one To address")), w)
  else
    match parse (From e) with
    | inr err => (Returned (Some err), w)
    | inl from =>
        match message e with
        | inr err => (Returned (Some err), w)
        | inl raw =>
            SendMail respond addr u p (Address from)
              (To e ++ Cc e ++ Bcc e) raw w
        end
    end.
Proof.
  unfold Send. rewrite merged_recipients.
  destruct (String.eqb (From e) EmptyString ||
            (length (To e ++ Cc e ++ Bcc e) =? 0)%nat); [done|].
  destruct (parse (From e)) as [from|err]; [|done].
  destruct (message e) as [raw|err]; [|done].
  rewrite <- (func_invoke (SendMail respond addr u p (Address from)
                            (To e ++ Cc e ++ Bcc e) raw) w).
  reflexivity.
Qed.

Lemma Send_guard e :
  String.eqb (From e) EmptyString ||
    (length (To e ++ Cc e ++ Bcc e) =? 0)%nat = true ↔
  From e = EmptyString ∨ To e ++ Cc e ++ Bcc e = [].
Proof.
  rewrite orb_true_iff, String.eqb_eq, Nat.eqb_eq, length_zero_iff_nil.
  done.
Qed.


(** [Send] returns, and leaves the log and the counters as they are. *)
Lemma Send_returns e addr u p (w : World Env) :
  ∃ err w', Send respond parse message e addr u p w = (Returned err, w') ∧
            log w' = log w ∧ counters w' = counters w.
Proof.
  rewrite Send_unfold.
  destruct (_ || _); [by eexists _, _|].
  destruct (parse (From e)) as [from|err]; [|by eexists _, _].
  destruct (message e) as [raw|err]; [|by eexists _, _].
  destruct (SendMail_run respond addr u p (Address from)
              (To e ++ Cc e ++ Bcc e) raw w)
    as (err & w' & evs & Hrun & _ & Hl & Hc & _).
  by exists err, w'.
Qed.

(** [DoEmail] counts every mail, as sent or as failed. *)
Lemma DoEmail_counts hostname n st c (w : World Env) :
  ∃ w', DoEmail respond parse message hostname n st c w = (Returned tt, w') ∧
    (counters w' = counter_add "email.sent" 1 (counters w) ∨
     counters w' = counter_add "email.sent_failed" 1 (counters w)).
Proof.
  unfold DoEmail, func. rewrite bind_run. unfold invoke.
  match goal with |- context [Send respond parse message ?e ?a ?u ?p w] =>
    destruct (Send_returns e a u p w) as (err & w1 & -> & Hl & Hc)
  end.
  destruct err as [err|]; run_unfold; rewrite Hc; eauto.
Qed.
End Sending.

(** [Notify] starts [DoPost] only for a notification that has a POST
    endpoint. *)
Lemma Notify_DoPost n st st' c :
  go_DoPost st' ∈ Notify n st c → n_Post n ≠ None.
Proof.
  unfold Notify. intros Hin Hpost. rewrite Hpost in Hin. simpl in Hin.
  destruct (0 <? length (n_Email n))%nat, (not_nil (n_Get n)), (n_Print n),
    (n_UseBody n); simpl in Hin;
    rewrite ?elem_of_cons, ?elem_of_nil in Hin; destruct_or?; done.
Qed.


(** * The claims *)

Section MailClaims.
Context {Env : Type} (respond : ∀ X : Type, Env → netE X → Env * X).
Context (parse : string → mail_Address + error).
Context (message : Email → bytes + error).

(** C1. When the From address of the mail is empty, or there is no
    recipient in To, Cc and Bcc together, [Send] returns the validation
    error and leaves the world as it found it: [SendMail] is not called
    and no call at all goes to the outside world. *)
Theorem Send_validates e addr u p (w : World Env) :
  From e = EmptyString ∨ To e ++ Cc e ++ Bcc e = [] →
  Send respond parse message e addr u p w =
    (Returned (Some (errors_New
       "Must specify at least one From address and one To address")), w) ∧
  calls_since w (Send respond parse message e addr u p w).2 = [].
Proof.
  intros H%Send_guard. rewrite Send_unfold, H. split; [done|].
  apply calls_since_refl.
Qed.

(** C2. With a From address that is not empty and parses, and at least
    one recipient, [Send] either returns the error of [Email.Bytes]
    without any call, or is [SendMail] called with the To list, then the
    Cc list, then the Bcc list as its recipients, in that order and with
    their duplicates.  On the wire, the recipients declared by the RCPT
    calls are the first of that list, and all of it once the session
    gets to DATA. *)
Theorem Send_recipients e addr u p from (w : World Env) :
  From e ≠ EmptyString → To e ++ Cc e ++ Bcc e ≠ [] →
  parse (From e) = inl from →
  Send respond parse message e addr u p w =
    match message e with
    | inr err => (Returned (Some err), w)
    | inl raw =>
        SendMail respond addr u p (Address from)
          (To e ++ Cc e ++ Bcc e) raw w
    end ∧
  recipients_of
    (calls_since w (Send respond parse message e addr u p w).2)
    `prefix_of` To e ++ Cc e ++ Bcc e ∧
  (calls_of DataCmd
     (calls_since w (Send respond parse message e addr u p w).2) ≠ [] →
   recipients_of
     (calls_since w (Send respond parse message e addr u p w).2) =
   To e ++ Cc e ++ Bcc e).
Proof.
  intros Hfrom Hto Hparse.
  assert (Hguard : String.eqb (From e) EmptyString ||
            (length (To e ++ Cc e ++ Bcc e) =? 0)%nat = false).
  { apply not_true_is_false. rewrite Send_guard. tauto. }
  rewrite Send_unfold, Hguard, Hparse. split; [done|].
  destruct (message e) as [raw|err]; simpl.
  - destruct (SendMail respond addr u p (Address from)
                (To e ++ Cc e ++ Bcc e) raw w) as [res w'] eqn:Hrun.
    destruct (SendMail_session respond _ _ _ _ _ _ _ _ _ Hrun)
      as (err & -> & Hs & _).
    by eapply session_recipients.
  - rewrite calls_since_refl. split; [apply prefix_nil|done].
Qed.

(** C7, as the code has it. [Send] parses the From address and nothing
    else: when the From address does not parse, [Send] returns an error
    and makes no call; the result of [Send] depends on the parser
    through the From address alone, so that recipients are handed to
    [SendMail] as they are, parsed or not. *)
Theorem Send_parses_sender_only e addr u p (w : World Env) :
  (∀ err, parse (From e) = inr err →
     ∃ err', Send respond parse message e addr u p w =
             (Returned (Some err'), w)) ∧
  (∀ parse' : string → mail_Address + error,
     parse' (From e) = parse (From e) →
     Send respond parse' message e addr u p w =
     Send respond parse message e addr u p w).
Proof.
  split.
  - intros err Hparse. rewrite Send_unfold, Hparse.
    destruct (_ || _); eauto.
  - intros parse' Hsame. unfold Send. by rewrite Hsame.
Qed.

(** C3. In a session where the relay never answers that it advertises
    STARTTLS, [SendMail] makes no [Client.Auth] call, whatever the
    username and the password. *)
Theorem SendMail_no_auth_without_STARTTLS addr u p from to msg
    (w w' : World Env) res :
  SendMail respond addr u p from to msg w = (res, w') →
  no_STARTTLS (calls_since w w') = true →
  calls_of Auth (calls_since w w') = [].
Proof.
  intros Hrun Hno.
  destruct (SendMail_session respond _ _ _ _ _ _ _ _ _ Hrun)
    as (err & -> & Hs & _).
  by eapply session_no_Auth.
Qed.


(** C5. In a session where the relay answers a [Client.Rcpt] call with
    an error, [SendMail] returns that error; the recipients declared are
    those up to the refused one and none after it; there is no
    [Client.Data] call; and the session ends with the refused
    [Client.Rcpt] followed by [Client.Close]. *)
Theorem SendMail_rcpt_rejected addr u p from to msg
    (w w' : World Env) res i ev e :
  SendMail respond addr u p from to msg w = (res, w') →
  calls_since w w' !! i = Some ev →
  verb_of ev = Rcpt → error_of ev = Some e →
  res = Returned (Some e) ∧
  calls_of DataCmd (calls_since w w') = [] ∧
  ∃ pre a post before r,
    to = pre ++ a :: post ∧ ev = Ev (Client_Rcpt a) (Some e) ∧
    recipients_of (calls_since w w') = pre ++ [a] ∧
    calls_since w w' = before ++ [ev; Ev Client_Close r].
Proof.
  intros Hrun Hin%list_elem_of_lookup_2 Hverb Herr.
  destruct (SendMail_session respond _ _ _ _ _ _ _ _ _ Hrun)
    as (err & -> & Hs & _).
  destruct (session_rejected _ _ _ _ _ _ _ _ ev e Hs Hin) as (-> & H);
    done.
Qed.

(** C6. In a run of [SendMail] where [smtp.Dial] succeeds, [SendMail]
    returns, there is one [Client.Close] call, and it is the last call
    of the run: on every way out the connection is closed once. *)
Theorem SendMail_closes_once addr u p from to msg (w w' : World Env) res :
  SendMail respond addr u p from to msg w = (res, w') →
  existsb connected (calls_since w w') = true →
  (∃ err, res = Returned err) ∧
  length (calls_of Close (calls_since w w')) = 1%nat ∧
  ∃ r, last (calls_since w w') = Some (Ev Client_Close r).
Proof.
  intros Hrun Hdial.
  destruct (SendMail_session respond _ _ _ _ _ _ _ _ _ Hrun)
    as (err & -> & Hs & _).
  split; [eauto|]. by eapply session_Close.
Qed.

(** C10. In a session where the relay does not advertise STARTTLS and no
    call fails, [SendMail] returns nil, and its calls are: dial, hello,
    the extension query, MAIL FROM, one RCPT for each recipient, DATA,
    the write of the whole message, the close of the data writer, QUIT
    and the close of the connection; no [Client.StartTLS], no
    [Client.Auth]. *)
Theorem SendMail_without_STARTTLS addr u p from to msg
    (w w' : World Env) res :
  SendMail respond addr u p from to msg w = (res, w') →
  no_STARTTLS (calls_since w w') = true →
  all_succeeded (calls_since w w') = true →
  res = Returned None ∧
  ∃ params n r,
    calls_since w w' =
    [Ev (smtp_Dial addr) None; Ev (Client_Hello "localhost") None;
     Ev (Client_Extension "STARTTLS") (false, params);
     Ev (Client_Mail from) None] ++ map rcpt_ok to ++
    [Ev Client_Data None; Ev (Writer_Write msg) (n, None);
     Ev Writer_Close None; Ev Client_Quit None; Ev Client_Close r].
Proof.
  intros Hrun Hno Hok.
  destruct (SendMail_session respond _ _ _ _ _ _ _ _ _ Hrun)
    as (err & -> & Hs & _).
  destruct (session_plain _ _ _ _ _ _ _ _ Hs Hno Hok) as [-> H]. done.
Qed.

End MailClaims.


Section PostClaims.
Context {Env : Type} (respond : ∀ X : Type, Env → netE X → Env * X).

(** C8, as the code has it. For a notification with a body template,
    [UseFullContext] false and [UseBody] true, the template is executed
    on the raw body string of the incident, not on the incident; when
    that succeeds [DoPost] posts what the template wrote, once, to the
    endpoint with the content type of the notification; when it fails
    [DoPost] logs the error and posts nothing. *)
Theorem DoPost_payload n st t url (w : World Env) :
  n_Body n = Some t → n_UseFullContext n = false → n_UseBody n = true →
  n_Post n = Some url →
  match Execute t (ctx_string (Body st)) with
  | (out, None) =>
      ∃ reply,
        calls_of Post (calls_since w (DoPost respond n st w).2) =
        [Ev (http_Post (URL_String url) (n_ContentType n) out) reply]
  | (_, Some err) =>
      DoPost respond n st w =
      (Returned tt,
       mkWorld (env w) (trace w) (log w ++ [slog_Errorln [VError err]])
         (counters w))
  end.
Proof.
  intros Ht Hctx Hbody Hpost.
  unfold DoPost, GetPayload. rewrite Ht, Hctx, Hbody, Hpost.
  rewrite string_of_bytes_of_string.
  destruct (Execute t (ctx_string (Body st))) as [out [err|]]; [done|].
  run_unfold.
  destruct (respond _ (env w) (http_Post _ _ out)) as [s [resp err]].
  exists (resp, err). simpl.
  destruct (body_to_close resp) as [b|]; run_unfold; crunch respond;
    rewrite <- ?app_assoc, calls_since_snoc; reflexivity.
Qed.

(** C9. When the [http.Post] call of [DoPost] gets a response whose
    status is 300 or more, [DoPost] returns (it has no result, so no
    error goes to its caller), adds one entry of error level to the log,
    the bad response line when [http.Post] returned no error, and leaves
    the counters as they are. *)
Theorem DoPost_bad_status n st (w w' : World Env) res i ev resp :
  DoPost respond n st w = (res, w') →
  calls_since w w' !! i = Some ev → verb_of ev = Post →
  response_of ev = Some resp → 300 ≤ StatusCode resp →
  res = Returned tt ∧ counters w' = counters w ∧
  ∃ l, log w' = log w ++ [l] ∧ is_failure_log l = true ∧
       (error_of ev = None →
        l = slog_Errorln [VString "bad response on notification post:";
                          VString (Status resp)]).
Proof.
  unfold DoPost.
  intros Hrun Hin%list_elem_of_lookup_2 Hverb Hresp Hstatus. revert Hrun.
  destruct (n_Body n) as [t|]; [destruct (Execute t _) as [out [err|]]|];
    destruct (n_Post n) as [url|]; run_unfold.
  all: try match goal with
    |- context [respond ?X ?s ?e] =>
      destruct (respond X s e) as [s1 [[r|] err]]; simpl;
      [destruct (resp_Body r) as [b|]|]
    end; crunch respond.
  all: intros [= <- <-]; simpl.
  all: first [ rewrite calls_since_same in Hin
             | rewrite calls_since_refl in Hin
             | rewrite <- ?app_assoc in Hin; rewrite calls_since_snoc in Hin ].
  all: cbn [app] in Hin;
    rewrite ?elem_of_cons, ?elem_of_nil in Hin; destruct_or?; subst;
    try discriminate; try done.
  all: simpl in *; simplify_eq.
  all: try (repeat split; try done; eexists; split; [reflexivity|]; by split).
  all: lia.
Qed.

End PostClaims.

(** * The claims on the scripted relay *)

Import Scenario.

Lemma Send_validates_witness :
  To (mail_to []) ++ Cc (mail_to []) ++ Bcc (mail_to []) = [] ∧
  calls_since start
    (Send (answers plain_relay) parse message (mail_to []) "relay:25"
       "user" "secret" start).2 = [].
Proof.
  split; [reflexivity|].
  apply (Send_validates (answers plain_relay) parse message (mail_to [])
           "relay:25" "user" "secret" start).
  right. reflexivity.
Defined.

Lemma Send_recipients_witness :
  parse (From mail_cc) = inl {| Name := EmptyString; Address := "a@x.com" |} ∧
  recipients_of
    (calls_since start
       (Send (answers open_relay) parse message mail_cc "relay:25"
          EmptyString EmptyString start).2)
    `prefix_of` ["b@y.com"; "d@y.com"; "b@y.com"; "e@y.com"].
Proof.
  split; [reflexivity|].
  apply (Send_recipients (answers open_relay) parse message mail_cc
           "relay:25" EmptyString EmptyString
           {| Name := EmptyString; Address := "a@x.com" |} start);
    [discriminate | discriminate | reflexivity].
Defined.

Lemma Send_parses_sender_only_witness :
  parse (From (mail_from "nobody")) =
    inr (errors_New "mail: missing '@' or angle-addr") ∧
  ∃ err',
    Send (answers open_relay) parse message (mail_from "nobody") "relay:25"
      EmptyString EmptyString start = (Returned (Some err'), start).
Proof.
  split; [reflexivity|].
  apply (proj1 (Send_parses_sender_only (answers open_relay) parse message
                  (mail_from "nobody") "relay:25" EmptyString EmptyString
                  start)
           (errors_New "mail: missing '@' or angle-addr")).
  reflexivity.
Defined.

(** C7 fails as it is stated: a recipient that is no mail address is not
    refused by [Send]; it is declared to the relay as it is and the mail
    goes out. *)
Lemma Send_sends_unparsed_recipient :
  parse "nobody" = inr (errors_New "mail: missing '@' or angle-addr") ∧
  (Send (answers open_relay) parse message (mail_to ["nobody"]) "relay:25"
     EmptyString EmptyString start).1 = Returned None ∧
  recipients_of
    (trace (Send (answers open_relay) parse message (mail_to ["nobody"])
              "relay:25" EmptyString EmptyString start).2) = ["nobody"].
Proof. vm_compute. repeat split. Qed.

Lemma SendMail_no_auth_without_STARTTLS_witness :
  no_STARTTLS
    (calls_since start
       (SendMail (answers plain_relay) "relay:25" "user" "secret" "a@x.com"
          ["b@y.com"] [] start).2) = true ∧
  calls_of Auth
    (calls_since start
       (SendMail (answers plain_relay) "relay:25" "user" "secret" "a@x.com"
          ["b@y.com"] [] start).2) = [].
Proof.
  split; [reflexivity|].
  apply (SendMail_no_auth_without_STARTTLS (answers plain_relay)
           "relay:25" "user" "secret" "a@x.com" ["b@y.com"] [] start _
           (SendMail (answers plain_relay) "relay:25" "user" "secret"
              "a@x.com" ["b@y.com"] [] start).1);
    [apply surjective_pairing | reflexivity].
Defined.


Lemma SendMail_rcpt_rejected_witness :
  calls_since start
    (SendMail (answers plain_relay) "relay:25" EmptyString EmptyString
       "a@x.com" ["b@y.com"; "c@y.com"] [] start).2 !! 5%nat =
  Some (Ev (Client_Rcpt "c@y.com")
          (Some (errors_New "550 mailbox unavailable"))) ∧
  (SendMail (answers plain_relay) "relay:25" EmptyString EmptyString
     "a@x.com" ["b@y.com"; "c@y.com"] [] start).1 =
  Returned (Some (errors_New "550 mailbox unavailable")) ∧
  calls_of DataCmd
    (calls_since start
       (SendMail (answers plain_relay) "relay:25" EmptyString EmptyString
          "a@x.com" ["b@y.com"; "c@y.com"] [] start).2) = [].
Proof.
  split; [reflexivity|].
  destruct (SendMail_rcpt_rejected (answers plain_relay)
              "relay:25" EmptyString EmptyString "a@x.com"
              ["b@y.com"; "c@y.com"] [] start
              (SendMail (answers plain_relay) "relay:25" EmptyString
                 EmptyString "a@x.com" ["b@y.com"; "c@y.com"] [] start).2
              (SendMail (answers plain_relay) "relay:25" EmptyString
                 EmptyString "a@x.com" ["b@y.com"; "c@y.com"] [] start).1
              5%nat
              (Ev (Client_Rcpt "c@y.com")
                 (Some (errors_New "550 mailbox unavailable")))
              (errors_New "550 mailbox unavailable"))
    as (Hres & Hdata & _);
    [apply surjective_pairing | reflexivity | reflexivity | reflexivity | ].
  split; [exact Hres | exact Hdata].
Defined.

Lemma SendMail_closes_once_witness :
  existsb connected
    (calls_since start
       (SendMail (answers plain_relay) "relay:25" EmptyString EmptyString
          "a@x.com" ["b@y.com"; "c@y.com"] [] start).2) = true ∧
  length
    (calls_of Close
       (calls_since start
          (SendMail (answers plain_relay) "relay:25" EmptyString EmptyString
             "a@x.com" ["b@y.com"; "c@y.com"] [] start).2)) = 1%nat.
Proof.
  split; [reflexivity|].
  apply (SendMail_closes_once (answers plain_relay)
           "relay:25" EmptyString EmptyString "a@x.com"
           ["b@y.com"; "c@y.com"] [] start _
           (SendMail (answers plain_relay) "relay:25" EmptyString
              EmptyString "a@x.com" ["b@y.com"; "c@y.com"] [] start).1);
    [apply surjective_pairing | reflexivity].
Defined.

Lemma SendMail_without_STARTTLS_witness :
  all_succeeded
    (calls_since start
       (SendMail (answers open_relay) "relay:25" "user" "secret" "a@x.com"
          ["b@y.com"; "c@y.com"] (bytes_of_string "disk is full")
          start).2) = true ∧
  (SendMail (answers open_relay) "relay:25" "user" "secret" "a@x.com"
     ["b@y.com"; "c@y.com"] (bytes_of_string "disk is full") start).1 =
  Returned None.
Proof.
  split; [reflexivity|].
  apply (SendMail_without_STARTTLS (answers open_relay)
           "relay:25" "user" "secret" "a@x.com" ["b@y.com"; "c@y.com"]
           (bytes_of_string "disk is full") start
           (SendMail (answers open_relay) "relay:25" "user" "secret"
              "a@x.com" ["b@y.com"; "c@y.com"]
              (bytes_of_string "disk is full") start).2);
    [apply surjective_pairing | reflexivity | reflexivity].
Defined.

Lemma DoPost_payload_witness :
  n_Body hook = Some alert_template ∧
  ∃ reply,
    calls_of Post
      (calls_since start (DoPost (answers plain_relay) hook incident start).2) =
    [Ev (http_Post "http://hook/" "text/plain"
           (bytes_of_string "Alert: disk full")) reply].
Proof.
  split; [reflexivity|].
  exact (DoPost_payload (answers plain_relay) hook incident alert_template
           {| URL_String := "http://hook/" |} start
           eq_refl eq_refl eq_refl eq_refl).
Defined.

(** C8 fails as it is stated: with a body template, [UseFullContext] false
    and [UseBody] true, what [DoPost] posts is what the template wrote, not
    the raw body of the incident. *)
Lemma DoPost_posts_rendered_template :
  n_UseFullContext hook = false ∧ n_UseBody hook = true ∧
  n_Body hook = Some alert_template ∧
  omap payload_of
    (trace (DoPost (answers plain_relay) hook incident start).2) =
  [bytes_of_string "Alert: disk full"] ∧
  bytes_of_string "Alert: disk full" ≠ bytes_of_string (Body incident).
Proof. vm_compute. repeat split. discriminate. Qed.

Lemma DoPost_bad_status_witness :
  300 ≤ 404 ∧
  (DoPost (answers plain_relay) hook incident start).1 = Returned tt ∧
  counters (DoPost (answers plain_relay) hook incident start).2 =
  counters start.
Proof.
  split; [lia|].
  destruct (DoPost_bad_status (answers plain_relay) hook incident start
              (DoPost (answers plain_relay) hook incident start).2
              (DoPost (answers plain_relay) hook incident start).1
              0%nat
              (Ev (http_Post "http://hook/" "text/plain"
                     (bytes_of_string "Alert: disk full"))
                 (Some {| Status := "404 Not Found"; StatusCode := 404;
                          resp_Body := Some 0%nat |}, None))
              {| Status := "404 Not Found"; StatusCode := 404;
                 resp_Body := Some 0%nat |})
    as (Hres & Hcount & _);
    [apply surjective_pairing | reflexivity | reflexivity | reflexivity
    | simpl; lia | ].
  split; [exact Hres | exact Hcount].
Defined.

(** * More properties *)

(** ** How a session ends *)

Lemma Forall_rcpt_ok (P : event → Prop) l :
  (∀ a, P (rcpt_ok a)) → Forall P (map rcpt_ok l).
Proof. intros H. apply Forall_fmap, Forall_forall. intros a _. apply H. Qed.

Section Endings.
Variables (addr u p from : string) (to : list string) (msg : bytes).

Ltac passed_list :=
  repeat first
    [ apply Forall_nil_2
    | apply Forall_cons_2; [first [by right | by left]|]
    | apply Forall_app; split
    | apply Forall_rcpt_ok; by right ].

Lemma negotiation_passed neg :
  negotiation addr u p neg → Forall passed neg.
Proof.
  intros []; passed_list.
Qed.

Lemma delivery_ending del err :
  delivery from to msg del err →
  ∃ before ev,
    del = before ++ [ev] ∧ error_of ev = err ∧
    verb_of ev ≠ Close ∧ verb_of ev ≠ Dial ∧ verb_of ev ≠ Auth ∧
    Forall passed before.
Proof.
  intros [ e | pre a post e Hto | e | n e | n e | n rq ].
  - by exists [], (Ev (Client_Mail from) (Some e)).
  - exists (Ev (Client_Mail from) None :: map rcpt_ok pre),
      (Ev (Client_Rcpt a) (Some e)).
    repeat split; try done.
    passed_list.
  - exists (Ev (Client_Mail from) None :: map rcpt_ok to),
      (Ev Client_Data (Some e)).
    repeat split; try done.
    passed_list.
  - exists (Ev (Client_Mail from) None :: map rcpt_ok to ++ [Ev Client_Data None]),
      (Ev (Writer_Write msg) (n, Some e)).
    repeat split; try done.
    + simpl. by rewrite <- app_assoc.
    + passed_list.
  - exists (Ev (Client_Mail from) None :: map rcpt_ok to ++
            [Ev Client_Data None; Ev (Writer_Write msg) (n, None)]),
      (Ev Writer_Close (Some e)).
    repeat split; try done.
    + simpl. by rewrite <- app_assoc.
    + passed_list.
  - exists (Ev (Client_Mail from) None :: map rcpt_ok to ++
            [Ev Client_Data None; Ev (Writer_Write msg) (n, None);
             Ev Writer_Close None]),
      (Ev Client_Quit rq).
    repeat split; try done.
    + simpl. by rewrite <- app_assoc.
    + passed_list.
Qed.

Lemma session_ending evs err :
  session addr u p from to msg evs err →
  ∃ before ev tail,
    evs = before ++ ev :: tail ∧ error_of ev = err ∧
    verb_of ev ≠ Close ∧ verb_of ev ≠ Auth ∧
    Forall passed before ∧
    (verb_of ev = Dial ∧ tail = [] ∨
     verb_of ev ≠ Dial ∧ ∃ r, tail = [Ev Client_Close r]).
Proof.
  intros [ e | e r | params e r | neg del res r Hn Hd ].
  - exists [], (Ev (smtp_Dial addr) (Some e)), []. repeat split; try done.
    by left.
  - exists [Ev (smtp_Dial addr) None],
      (Ev (Client_Hello "localhost") (Some e)), [Ev Client_Close r].
    repeat split; try done.
    + passed_list.
    + right. split; [done|]. by exists r.
  - exists [Ev (smtp_Dial addr) None; Ev (Client_Hello "localhost") None;
            Ev (Client_Extension "STARTTLS") (true, params)],
      (Ev (Client_StartTLS {| InsecureSkipVerify := true |}) (Some e)),
      [Ev Client_Close r].
    repeat split; try done.
    + passed_list.
    + right. split; [done|]. by exists r.
  - destruct (delivery_ending del res Hd)
      as (before & ev & -> & Herr & HC & HD & HA & Hbefore).
    exists ([Ev (smtp_Dial addr) None; Ev (Client_Hello "localhost") None] ++
            neg ++ before), ev, [Ev Client_Close r].
    repeat split; try done.
    + by rewrite <- !app_assoc.
    + apply Forall_app. split; [passed_list|].
      apply Forall_app. split; [by apply negotiation_passed|done].
    + right. split; [done|]. by exists r.
Qed.

(** Without credentials there is no AUTH. *)
Lemma session_no_credentials evs err :
  session addr u p from to msg evs err →
  len_gt_0 u || len_gt_0 p = false → calls_of Auth evs = [].
Proof.
  intros [ e | e r | params e r | neg del res r Hn Hd ] Hno; try done.
  calls_norm. rewrite (delivery_calls_of from to msg Auth del res) by done.
  destruct Hn; try done. congruence.
Qed.

(** STARTTLS is asked for at most once, without certificate
    verification, and only of a relay that advertises it. *)
Lemma session_StartTLS evs err :
  session addr u p from to msg evs err →
  calls_of StartTLS evs = [] ∨
  existsb advertises_STARTTLS evs = true ∧
  ∃ r, calls_of StartTLS evs =
       [Ev (Client_StartTLS {| InsecureSkipVerify := true |}) r].
Proof.
  intros [ e | e r | params e r | neg del res r Hn Hd ].
  - by left.
  - by left.
  - right. split; [done|]. by exists (Some e).
  - calls_norm. rewrite (delivery_calls_of from to msg StartTLS del res) by done.
    destruct Hn; [by left|right..]; (split; [done|]); by exists None.
Qed.

(** The message is written after every recipient was accepted, whole and
    once. *)
Lemma delivery_Data del err :
  delivery from to msg del err →
  (calls_of DataCmd del ≠ [] ∨ calls_of Write del ≠ [] →
   calls_of Rcpt del = map rcpt_ok to) ∧
  (calls_of Write del = [] ∨
   ∃ n r, calls_of Write del = [Ev (Writer_Write msg) (n, r)]).
Proof.
  intros [ e | pre a post e Hto | e | n e | n e | n rq ]; calls_norm;
    rewrite ?app_nil_r; (split; [try done; by intros [|]|]); eauto.
Qed.

Lemma session_Data evs err :
  session addr u p from to msg evs err →
  (calls_of DataCmd evs ≠ [] ∨ calls_of Write evs ≠ [] →
   calls_of Rcpt evs = map rcpt_ok to) ∧
  (calls_of Write evs = [] ∨
   ∃ n r, calls_of Write evs = [Ev (Writer_Write msg) (n, r)]).
Proof.
  intros [ e | e r | params e r | neg del res r Hn Hd ].
  1-3: split; [by intros [|]|by left].
  destruct (delivery_Data del res Hd) as [H1 H2].
  calls_norm.
  rewrite !(negotiation_calls_of addr u p _ neg Hn) by done.
  by rewrite !app_nil_r.
Qed.

(** The one MAIL FROM carries the sender, the one dial the address. *)
Lemma session_Mail evs err :
  session addr u p from to msg evs err →
  (calls_of Mail evs = [] ∨ ∃ r, calls_of Mail evs = [Ev (Client_Mail from) r]) ∧
  ∃ r, calls_of Dial evs = [Ev (smtp_Dial addr) r].
Proof.
  intros [ e | e r | params e r | neg del res r Hn Hd ].
  1-3: split; [by left|by eexists].
  destruct (delivery_Mail from to msg del res Hd) as (r' & rest & _ & HMail).
  calls_norm.
  rewrite !(negotiation_calls_of addr u p _ neg Hn) by done.
  rewrite HMail, (delivery_calls_of from to msg Dial del res) by done.
  split; [right|]; by eexists.
Qed.

(** Every AUTH is PLAIN, with an empty identity, for the first piece of
    the address split at its colons. *)
Lemma session_Auth_host evs err host :
  session addr u p from to msg evs err →
  strings_Split addr ":" !! 0%nat = Some host →
  calls_of Auth evs = [] ∨
  ∃ r, calls_of Auth evs =
       [Ev (Client_Auth (PlainAuth EmptyString u p host)) r].
Proof.
  intros [ e | e r | params e r | neg del res r Hn Hd ] Hhost;
    [by left..|].
  calls_norm. rewrite (delivery_calls_of from to msg Auth del res) by done.
  destruct Hn as [ | | params host' ra Hcred Hhost' ]; [by left..|].
  right. exists ra. simpl. congruence.
Qed.


End Endings.

(** ** The host of a relay address *)

Lemma append_cons a s t : String a s +:+ t = String a (s +:+ t).
Proof. reflexivity. Qed.

Lemma append_empty_l t : EmptyString +:+ t = t.
Proof. reflexivity. Qed.

Lemma append_snoc acc c h :
  (acc +:+ String c EmptyString) +:+ h = acc +:+ String c h.
Proof.
  induction acc as [|a acc IH]; [done|]. rewrite !append_cons. by rewrite IH.
Qed.

Lemma append_empty_r s : s +:+ EmptyString = s.
Proof. induction s as [|a s IH]; [done|]. rewrite append_cons. by rewrite IH. Qed.

Example colon_string : String colon EmptyString = ":".
Proof. reflexivity. Qed.

Lemma prefix_colon c s :
  String.prefix ":" (String c s) = bool_decide (c = colon).
Proof.
  cbn [String.prefix]. fold colon.
  destruct (Ascii.ascii_dec colon c) as [<-|Hne].
  - rewrite bool_decide_eq_true_2 by done. by destruct s.
  - by rewrite bool_decide_eq_false_2 by congruence.
Qed.

(** Up to the first colon. *)
Lemma split_go_first_colon acc h rest :
  has_char colon h = false →
  split_go ":" 0 acc (h +:+ String colon rest) =
  (acc +:+ h) :: split_go ":" 0 EmptyString rest.
Proof.
  revert acc. induction h as [|c h IH]; intros acc Hno.
  - rewrite append_empty_l. cbn [split_go].
    rewrite prefix_colon, bool_decide_eq_true_2 by done.
    by rewrite append_empty_r.
  - cbn [has_char] in Hno. apply orb_false_elim in Hno as [Hc Hno].
    rewrite append_cons. cbn [split_go]. rewrite prefix_colon, Hc.
    rewrite IH by done. by rewrite append_snoc.
Qed.

Lemma split_go_no_colon acc h :
  has_char colon h = false → split_go ":" 0 acc h = [acc +:+ h].
Proof.
  revert acc. induction h as [|c h IH]; intros acc Hno.
  - cbn [split_go]. by rewrite append_empty_r.
  - cbn [has_char] in Hno. apply orb_false_elim in Hno as [Hc Hno].
    cbn [split_go]. rewrite prefix_colon, Hc.
    rewrite IH by done. by rewrite append_snoc.
Qed.

Lemma host_of_address host rest :
  has_char colon host = false →
  strings_Split (host +:+ String colon rest) ":" !! 0%nat = Some host ∧
  strings_Split host ":" !! 0%nat = Some host.
Proof.
  intros Hno. unfold strings_Split.
  rewrite (split_go_first_colon EmptyString host rest),
    (split_go_no_colon EmptyString host) by done.
  by rewrite append_empty_l.
Qed.

Section MoreMail.
Context {Env : Type} (respond : ∀ X : Type, Env → netE X → Env * X).

(** X1. When [smtp.Dial] fails, [SendMail] returns its error; the dial is
    the only call: nothing was opened and nothing is closed. *)
Theorem SendMail_dial_failure addr u p from to msg (w : World Env) e :
  (respond _ (env w) (smtp_Dial addr)).2 = Some e →
  (SendMail respond addr u p from to msg w).1 = Returned (Some e) ∧
  calls_since w (SendMail respond addr u p from to msg w).2 =
  [Ev (smtp_Dial addr) (Some e)].
Proof.
  intros Hdial. unfold SendMail. run_unfold.
  destruct (respond _ (env w) (smtp_Dial addr)) as [s r]. simpl in Hdial.
  subst r. simpl. split; [done|]. apply calls_since_snoc.
Qed.

(** X2. A run of [SendMail] is: calls that all succeeded, [Client.Auth]
    apart; then one call whose error, nil or not, is what [SendMail]
    returns; then [Client.Close], unless that call is the dial.  So the
    first error stops the session and is returned as it is. *)
Theorem SendMail_stops_at_first_error addr u p from to msg
    (w : World Env) :
  ∃ err before ev tail,
    (SendMail respond addr u p from to msg w).1 = Returned err ∧
    calls_since w (SendMail respond addr u p from to msg w).2 =
      before ++ ev :: tail ∧
    error_of ev = err ∧ verb_of ev ≠ Close ∧ verb_of ev ≠ Auth ∧
    Forall passed before ∧
    (verb_of ev = Dial ∧ tail = [] ∨
     verb_of ev ≠ Dial ∧ ∃ r, tail = [Ev Client_Close r]).
Proof.
  destruct (SendMail respond addr u p from to msg w) as [res w'] eqn:Hrun.
  destruct (SendMail_session respond _ _ _ _ _ _ _ _ _ Hrun)
    as (err & -> & Hs & _).
  destruct (session_ending _ _ _ _ _ _ _ _ Hs) as (before & ev & tail & H).
  exists err, before, ev, tail. by destruct_and?.
Qed.

(** X3. [SendMail] returns nil exactly when every call whose error it
    looks at succeeded: all of them but [Client.Auth] and the deferred
    [Client.Close]. *)
Theorem SendMail_nil_iff_clean addr u p from to msg (w : World Env) :
  (SendMail respond addr u p from to msg w).1 = Returned None ↔
  ran_clean (calls_since w (SendMail respond addr u p from to msg w).2) = true.
Proof.
  destruct (SendMail respond addr u p from to msg w) as [res w'] eqn:Hrun.
  destruct (SendMail_session respond _ _ _ _ _ _ _ _ _ Hrun)
    as (err & -> & Hs & _).
  destruct (session_ending _ _ _ _ _ _ _ _ Hs)
    as (before & ev & tail & Hevs & Herr & HC & HA & Hb & Htail).
  simpl. rewrite Hevs.
  assert (Hbefore : ran_clean before = true).
  { unfold ran_clean. apply forallb_forall. intros x Hx%list_elem_of_In.
    rewrite Forall_forall in Hb. unfold error_dropped, succeeded.
    destruct (Hb x Hx) as [->| ->]; [done|]. simpl. apply orb_true_r. }
  assert (Htl : ran_clean tail = true).
  { destruct Htail as [[_ ->]|[_ [r ->]]]; done. }
  unfold ran_clean in *. rewrite forallb_app. cbn [forallb].
  rewrite Hbefore, Htl, andb_true_r. cbn [andb].
  unfold error_dropped, succeeded.
  rewrite !bool_decide_eq_false_2 by done. rewrite Herr. simpl.
  destruct err; simpl; split; congruence.
Qed.

(** X4. [SendMail] always returns, writes nothing to the log, not even a
    failed authentication, and touches no counter. *)
Theorem SendMail_quiet addr u p from to msg (w : World Env) :
  (∃ err, (SendMail respond addr u p from to msg w).1 = Returned err) ∧
  log (SendMail respond addr u p from to msg w).2 = log w ∧
  counters (SendMail respond addr u p from to msg w).2 = counters w.
Proof.
  destruct (SendMail_run respond addr u p from to msg w)
    as (err & w' & evs & -> & _ & Hl & Hc & _). simpl. eauto.
Qed.

(** X5. With an empty username and an empty password [SendMail] makes no
    [Client.Auth] call, with or without STARTTLS. *)
Theorem SendMail_no_auth_without_credentials addr from to msg
    (w : World Env) :
  calls_of Auth
    (calls_since w
       (SendMail respond addr EmptyString EmptyString from to msg w).2) = [].
Proof.
  destruct (SendMail respond addr EmptyString EmptyString from to msg w)
    as [res w'] eqn:Hrun.
  destruct (SendMail_session respond _ _ _ _ _ _ _ _ _ Hrun)
    as (err & -> & Hs & _).
  by eapply session_no_credentials.
Qed.

(** X6. [SendMail] asks for STARTTLS at most once, only of a relay that
    answered that it advertises it, and always with the verification of
    the certificate switched off. *)
Theorem SendMail_StartTLS addr u p from to msg (w : World Env) :
  calls_of StartTLS
    (calls_since w (SendMail respond addr u p from to msg w).2) = [] ∨
  existsb advertises_STARTTLS
    (calls_since w (SendMail respond addr u p from to msg w).2) = true ∧
  ∃ r, calls_of StartTLS
         (calls_since w (SendMail respond addr u p from to msg w).2) =
       [Ev (Client_StartTLS {| InsecureSkipVerify := true |}) r].
Proof.
  destruct (SendMail respond addr u p from to msg w) as [res w'] eqn:Hrun.
  destruct (SendMail_session respond _ _ _ _ _ _ _ _ _ Hrun)
    as (err & -> & Hs & _).
  by eapply session_StartTLS.
Qed.

(** X7. [SendMail] gets to DATA only after the relay accepted every
    recipient, in the order of the list; what it writes then is the whole
    message, in one write. *)
Theorem SendMail_data_after_recipients addr u p from to msg
    (w : World Env) :
  (calls_of DataCmd
     (calls_since w (SendMail respond addr u p from to msg w).2) ≠ [] ∨
   calls_of Write
     (calls_since w (SendMail respond addr u p from to msg w).2) ≠ [] →
   calls_of Rcpt
     (calls_since w (SendMail respond addr u p from to msg w).2) =
   map rcpt_ok to) ∧
  (calls_of Write
     (calls_since w (SendMail respond addr u p from to msg w).2) = [] ∨
   ∃ n r,
     calls_of Write
       (calls_since w (SendMail respond addr u p from to msg w).2) =
     [Ev (Writer_Write msg) (n, r)]).
Proof.
  destruct (SendMail respond addr u p from to msg w) as [res w'] eqn:Hrun.
  destruct (SendMail_session respond _ _ _ _ _ _ _ _ _ Hrun)
    as (err & -> & Hs & _).
  by eapply session_Data.
Qed.

(** X8. The host [SendMail] authenticates for is the relay address up to
    its first colon, the whole address when it has none: every
    [Client.Auth] call is PLAIN with an empty identity, the username, the
    password and that host. *)
Theorem SendMail_auth_host host rest u p from to msg (w : World Env) :
  has_char colon host = false →
  (calls_of Auth
     (calls_since w
        (SendMail respond (host +:+ String colon rest) u p from to msg w).2)
     = [] ∨
   ∃ r, calls_of Auth
          (calls_since w
             (SendMail respond (host +:+ String colon rest) u p from to msg
                w).2) =
        [Ev (Client_Auth (PlainAuth EmptyString u p host)) r]) ∧
  (calls_of Auth
     (calls_since w (SendMail respond host u p from to msg w).2) = [] ∨
   ∃ r, calls_of Auth
          (calls_since w (SendMail respond host u p from to msg w).2) =
        [Ev (Client_Auth (PlainAuth EmptyString u p host)) r]).
Proof.
  intros Hno. destruct (host_of_address host rest Hno) as [H1 H2]. split.
  - destruct (SendMail respond (host +:+ String colon rest) u p from to msg w)
      as [res w'] eqn:Hrun.
    destruct (SendMail_session respond _ _ _ _ _ _ _ _ _ Hrun)
      as (err & -> & Hs & _).
    by eapply session_Auth_host.
  - destruct (SendMail respond host u p from to msg w) as [res w'] eqn:Hrun.
    destruct (SendMail_session respond _ _ _ _ _ _ _ _ _ Hrun)
      as (err & -> & Hs & _).
    by eapply session_Auth_host.
Qed.


End MoreMail.

(** ** [Send] and [DoEmail], on the wire and in the counters *)

Lemma counter_add_same metric inc c :
  counter (counter_add metric inc c) metric = counter c metric + inc.
Proof. unfold counter, counter_add. by rewrite lookup_insert_eq. Qed.

Lemma counter_add_other metric metric' inc c :
  metric ≠ metric' →
  counter_add metric inc c !! metric' = c !! metric'.
Proof. intros H. unfold counter_add. by rewrite lookup_insert_ne. Qed.

Lemma fold_To (l : list mail_Address) (e : Email) :
  let e' := fold_left (fun e a => set_To (To e ++ [Address a]) e) l e in
  To e' = To e ++ map Address l ∧ From e' = From e ∧ Cc e' = Cc e ∧
  Bcc e' = Bcc e ∧ e_Subject e' = e_Subject e ∧ e_HTML e' = e_HTML e ∧
  e_Headers e' = e_Headers e ∧ e_Attachments e' = e_Attachments e.
Proof.
  revert e. induction l as [|a l IH]; intros e; simpl.
  - by rewrite app_nil_r.
  - destruct (IH (set_To (To e ++ [Address a]) e)) as (-> & -> & -> & -> & -> & -> & -> & ->).
    simpl. by rewrite <- app_assoc.
Qed.

Lemma fold_Attach (l : list Attachment) (e : Email) :
  let e' :=
    fold_left (fun e a => Attach (Data a) (Filename a) (ContentType a) e) l e in
  e_Attachments e' =
    e_Attachments e ++
    map (fun a => {| a_Filename := Filename a;
                     a_ContentType := ContentType a;
                     a_Content := Data a |}) l ∧
  To e' = To e ∧ From e' = From e ∧ Cc e' = Cc e ∧
  Bcc e' = Bcc e ∧ e_Subject e' = e_Subject e ∧ e_HTML e' = e_HTML e ∧
  e_Headers e' = e_Headers e.
Proof.
  revert e. induction l as [|a l IH]; intros e; simpl.
  - by rewrite app_nil_r.
  - destruct (IH (Attach (Data a) (Filename a) (ContentType a) e))
      as (-> & -> & -> & -> & -> & -> & -> & ->).
    simpl. by rewrite <- app_assoc.
Qed.

(** What [DoEmail] does after [Send] returned [err] in the world [w1]. *)
Lemma DoEmail_after_Send {Env : Type}
    (respond : ∀ X : Type, Env → netE X → Env * X) parse message
    hostname n st c :
  ∃ e, built_mail hostname n st c e ∧
    ∀ w : World Env,
      DoEmail respond parse message hostname n st c w =
      match Send respond parse message e (SMTPHost c) (SMTPUsername c)
              (SMTPPassword c) w with
      | (Returned (Some err), w1) =>
          (Returned tt,
           mkWorld (env w1) (trace w1)
             (log w1 ++
              [slog_Errorf ("failed to send alert %v to %v %v" +:+ newline)
                 [VString (AlertKey st); VStrings (To e); VError err]])
             (counter_add "email.sent_failed" 1 (counters w1)))
      | (Returned None, w1) =>
          (Returned tt,
           mkWorld (env w1) (trace w1)
             (log w1 ++
              [slog_Infof
                 "relayed alert %v to %v sucessfully. Subject: %d bytes. Body: %d bytes."
                 [VString (AlertKey st); VStrings (To e);
                  VInt (Z.of_nat (length (EmailSubject st)));
                  VInt (Z.of_nat (length (EmailBody st)))]])
             (counter_add "email.sent" 1 (counters w1)))
      | (Panicked, w1) => (Panicked, w1)
      end.
Proof.
  eexists. split; cycle 1.
  - intros w. unfold DoEmail, func. rewrite bind_run. unfold invoke.
    match goal with
    | |- ?L = match Send _ _ _ ?x _ _ _ _ with _ => _ end =>
        match L with
        | context [Send respond parse message ?e0 _ _ _ w] => unify x e0
        end
    end.
    match goal with |- context [Send respond parse message ?e ?a ?u ?p w] =>
      destruct (Send respond parse message e a u p w) as [[[err|]|] w1]
    end; reflexivity.
  - set (e0 := set_From (EmailFrom c) NewEmail).
    set (e1 := fold_left (fun e a => set_To (To e ++ [Address a]) e)
                 (n_Email n) e0).
    set (e2 := set_HTML (EmailBody st)
                 (set_Subject (string_of_bytes (EmailSubject st)) e1)).
    set (e3 := fold_left
                 (fun e a => Attach (Data a) (Filename a) (ContentType a) e)
                 (Attachments st) e2).
    destruct (fold_To (n_Email n) e0)
      as (T1 & T2 & T3 & T4 & T5 & T6 & T7 & T8).
    destruct (fold_Attach (Attachments st) e2)
      as (A1 & A2 & A3 & A4 & A5 & A6 & A7 & A8).
    fold e1 in T1, T2, T3, T4, T5, T6, T7, T8.
    fold e3 in A1, A2, A3, A4, A5, A6, A7, A8.
    unfold built_mail.
    cbn [From To Cc Bcc e_Subject e_HTML e_Headers e_Attachments set_Headers].
    rewrite A1, A2, A3, A4, A5, A6, A7, A8. unfold e2.
    cbn [From To Cc Bcc e_Subject e_HTML e_Headers e_Attachments
      set_HTML set_Subject].
    rewrite T1, T2, T3, T4, T7, T8. unfold e0. simpl.
    unfold Headers_Add. rewrite lookup_empty. simpl.
    by rewrite insert_empty.
Qed.

Section MoreSending.
Context {Env : Type} (respond : ∀ X : Type, Env → netE X → Env * X).
Context (parse : string → mail_Address + error).
Context (message : Email → bytes + error).

(** X10. What [Send] puts on the wire: it dials the address it was
    given; the envelope sender is the address part of the parsed From, not
    the From text; the bytes written are those of [Email.Bytes]. *)
Theorem Send_envelope e addr u p from raw (w : World Env) :
  parse (From e) = inl from → message e = inl raw →
  (calls_since w (Send respond parse message e addr u p w).2 = [] ∨
   ∃ r, calls_of Dial
          (calls_since w (Send respond parse message e addr u p w).2) =
        [Ev (smtp_Dial addr) r]) ∧
  (calls_of Mail
     (calls_since w (Send respond parse message e addr u p w).2) = [] ∨
   ∃ r, calls_of Mail
          (calls_since w (Send respond parse message e addr u p w).2) =
        [Ev (Client_Mail (Address from)) r]) ∧
  (calls_of Write
     (calls_since w (Send respond parse message e addr u p w).2) = [] ∨
   ∃ n r, calls_of Write
            (calls_since w (Send respond parse message e addr u p w).2) =
          [Ev (Writer_Write raw) (n, r)]).
Proof.
  intros Hparse Hmsg. rewrite Send_unfold, Hparse, Hmsg.
  destruct (_ || _).
  { simpl. rewrite calls_since_refl. repeat split; by left. }
  destruct (SendMail respond addr u p (Address from)
              (To e ++ Cc e ++ Bcc e) raw w) as [res w'] eqn:Hrun.
  destruct (SendMail_session respond _ _ _ _ _ _ _ _ _ Hrun)
    as (err & -> & Hs & _).
  simpl.
  destruct (session_Mail _ _ _ _ _ _ _ _ Hs) as [HM HD].
  destruct (session_Data _ _ _ _ _ _ _ _ Hs) as [_ HW].
  split; [by right|]. done.
Qed.

(** X11. [DoEmail] returns and counts the mail once: it adds one to
    [email.sent] when [Send] returned nil and one to [email.sent_failed]
    when [Send] returned an error, leaves every other counter alone, and
    adds one entry to the log, of error level exactly when [Send]
    failed. *)
Theorem DoEmail_accounting hostname n st c (w : World Env) :
  ∃ e err w1 l,
    built_mail hostname n st c e ∧
    Send respond parse message e (SMTPHost c) (SMTPUsername c)
      (SMTPPassword c) w = (Returned err, w1) ∧
    (DoEmail respond parse message hostname n st c w).1 = Returned tt ∧
    let w' := (DoEmail respond parse message hostname n st c w).2 in
    trace w' = trace w1 ∧
    log w' = log w ++ [l] ∧ is_failure_log l = not_nil err ∧
    counter (counters w') "email.sent" =
      counter (counters w) "email.sent" + (if not_nil err then 0 else 1) ∧
    counter (counters w') "email.sent_failed" =
      counter (counters w) "email.sent_failed" + (if not_nil err then 1 else 0) ∧
    ∀ metric, metric ≠ "email.sent" → metric ≠ "email.sent_failed" →
      counters w' !! metric = counters w !! metric.
Proof.
  destruct (DoEmail_after_Send respond parse message hostname n st c)
    as (e & He & Hrun).
  destruct (Send_returns respond parse message e (SMTPHost c)
              (SMTPUsername c) (SMTPPassword c) w)
    as (err & w1 & HSend & Hl & Hc).
  exists e, err, w1.
  destruct err as [err|]; eexists;
    (split; [done|]); (split; [exact HSend|]);
    rewrite Hrun, HSend;
    (split; [reflexivity|]);
    simpl; rewrite Hl, Hc;
    (split; [done|]); (split; [reflexivity|]); (split; [done|]).
  all: repeat split;
    first [ rewrite counter_add_same; simpl; lia
          | unfold counter; rewrite counter_add_other by done; simpl; lia
          | intros m H1 H2; by rewrite counter_add_other ].
Qed.

(** X12. Without a recipient in the notification, or with an empty
    sender in the configuration, [DoEmail] makes no call to the outside
    world and counts the mail as failed. *)
Theorem DoEmail_invalid hostname n st c (w : World Env) :
  n_Email n = [] ∨ EmailFrom c = EmptyString →
  calls_since w (DoEmail respond parse message hostname n st c w).2 = [] ∧
  counter (counters (DoEmail respond parse message hostname n st c w).2)
    "email.sent_failed" = counter (counters w) "email.sent_failed" + 1 ∧
  counter (counters (DoEmail respond parse message hostname n st c w).2)
    "email.sent" = counter (counters w) "email.sent".
Proof.
  intros Hbad.
  destruct (DoEmail_after_Send respond parse message hostname n st c)
    as (e & He & Hrun).
  destruct He as (HFrom & HTo & HCc & HBcc & _).
  assert (Hguard : From e = EmptyString ∨ To e ++ Cc e ++ Bcc e = []).
  { destruct Hbad as [Hn|Hf]; [right|left; congruence].
    by rewrite HTo, HCc, HBcc, Hn. }
  apply Send_guard in Hguard.
  rewrite Hrun, Send_unfold, Hguard. simpl.
  rewrite calls_since_same, counter_add_same. split; [done|]. split; [done|].
  unfold counter. by rewrite counter_add_other.
Qed.

(** X13. On the wire, [DoEmail] dials the configured relay and declares
    the addresses of the notification, in their order, as recipients:
    the first of them, and all of them once the session gets to DATA. *)
Theorem DoEmail_wire hostname n st c (w : World Env) :
  (calls_since w (DoEmail respond parse message hostname n st c w).2 = [] ∨
   ∃ r, calls_of Dial
          (calls_since w
             (DoEmail respond parse message hostname n st c w).2) =
        [Ev (smtp_Dial (SMTPHost c)) r]) ∧
  recipients_of
    (calls_since w (DoEmail respond parse message hostname n st c w).2)
    `prefix_of` map Address (n_Email n) ∧
  (calls_of DataCmd
     (calls_since w (DoEmail respond parse message hostname n st c w).2)
     ≠ [] →
   recipients_of
     (calls_since w (DoEmail respond parse message hostname n st c w).2) =
   map Address (n_Email n)).
Proof.
  destruct (DoEmail_after_Send respond parse message hostname n st c)
    as (e & He & Hrun).
  destruct He as (HFrom & HTo & HCc & HBcc & _).
  assert (Hrcpt : To e ++ Cc e ++ Bcc e = map Address (n_Email n)).
  { by rewrite HTo, HCc, HBcc, !app_nil_r. }
  rewrite Hrun, Send_unfold, Hrcpt.
  assert (Hnone :
    (@nil event = [] ∨ ∃ r : option error,
       calls_of Dial [] = [Ev (smtp_Dial (SMTPHost c)) r]) ∧
    recipients_of [] `prefix_of` map Address (n_Email n) ∧
    (calls_of DataCmd [] ≠ [] →
     recipients_of [] = map Address (n_Email n))).
  { split; [by left|]. split; [apply prefix_nil|done]. }
  destruct (_ || _); [simpl; by rewrite calls_since_same|].
  destruct (parse (From e)) as [from|err];
    [|simpl; by rewrite calls_since_same].
  destruct (message e) as [raw|err];
    [|simpl; by rewrite calls_since_same].
  destruct (SendMail respond (SMTPHost c) (SMTPUsername c) (SMTPPassword c)
              (Address from) (map Address (n_Email n)) raw w)
    as [res w'] eqn:Hrun'.
  destruct (SendMail_session respond _ _ _ _ _ _ _ _ _ Hrun')
    as (err & -> & Hs & Ht & _).
  destruct (session_Mail _ _ _ _ _ _ _ _ Hs) as [_ HD].
  destruct (session_recipients _ _ _ _ _ _ _ _ Hs) as [Hp Ha].
  assert (Hsame : ∀ l k, calls_since w (mkWorld (env w') (trace w') l k) =
                         calls_since w w') by done.
  destruct err; simpl; rewrite Hsame; (split; [by right|]); done.
Qed.

End MoreSending.

(** ** The HTTP channels and [Notify] *)

Section MoreHTTP.
Context {Env : Type} (respond : ∀ X : Type, Env → netE X → Env * X).

(** X14. Without a body template [DoPost] posts, once, the raw body of
    the incident when [UseBody] is set and the raw subject when it is not,
    to the endpoint and with the content type of the notification. *)
Theorem DoPost_without_template n st url (w : World Env) :
  n_Body n = None → n_Post n = Some url →
  ∃ reply,
    calls_of Post (calls_since w (DoPost respond n st w).2) =
    [Ev (http_Post (URL_String url) (n_ContentType n)
           (bytes_of_string (if n_UseBody n then Body st else Subject st)))
        reply].
Proof.
  intros Ht Hpost. unfold DoPost, GetPayload. rewrite Ht, Hpost.
  replace (if n_UseBody n then bytes_of_string (Body st)
           else bytes_of_string (Subject st))
    with (bytes_of_string (if n_UseBody n then Body st else Subject st))
    by (by destruct (n_UseBody n)).
  run_unfold.
  destruct (respond _ (env w) (http_Post _ _ _)) as [s [resp err]].
  exists (resp, err). simpl.
  destruct (body_to_close resp) as [b|]; run_unfold; crunch respond;
    rewrite <- ?app_assoc, calls_since_snoc; reflexivity.
Qed.

(** X15. With a body template and [UseFullContext] set, the template is
    executed on the incident itself, whatever [UseBody] says; [DoPost]
    posts what the template wrote, or logs the error of the template and
    posts nothing. *)
Theorem DoPost_full_context n st t url (w : World Env) :
  n_Body n = Some t → n_UseFullContext n = true → n_Post n = Some url →
  match Execute t (ctx_state st) with
  | (out, None) =>
      ∃ reply,
        calls_of Post (calls_since w (DoPost respond n st w).2) =
        [Ev (http_Post (URL_String url) (n_ContentType n) out) reply]
  | (_, Some err) =>
      DoPost respond n st w =
      (Returned tt,
       mkWorld (env w) (trace w) (log w ++ [slog_Errorln [VError err]])
         (counters w))
  end.
Proof.
  intros Ht Hctx Hpost. unfold DoPost. rewrite Ht, Hctx, Hpost.
  destruct (Execute t (ctx_state st)) as [out [err|]]; [done|].
  run_unfold.
  destruct (respond _ (env w) (http_Post _ _ out)) as [s [resp err]].
  exists (resp, err). simpl.
  destruct (body_to_close resp) as [b|]; run_unfold; crunch respond;
    rewrite <- ?app_assoc, calls_since_snoc; reflexivity.
Qed.

(** X16. [DoPost] and [DoGet] dereference their endpoint without a check:
    called on a notification without the endpoint they panic, before any
    call to the outside world ([DoPost] after its template, when it has
    one, ran without error). *)
Theorem nil_endpoint_panics n st ak (w : World Env) :
  (n_Post n = None →
   (∀ t, n_Body n = Some t →
         (Execute t (if n_UseFullContext n then ctx_state st
                     else ctx_string
                            (string_of_bytes
                               (GetPayload n (Subject st) (Body st))))).2
         = None) →
   DoPost respond n st w = (Panicked, w)) ∧
  (n_Get n = None → DoGet respond n ak w = (Panicked, w)).
Proof.
  split.
  - intros Hpost Hok. unfold DoPost. rewrite Hpost.
    destruct (n_Body n) as [t|]; [|done].
    specialize (Hok t eq_refl).
    destruct (Execute t _) as [out err]. simpl in Hok. by subst err.
  - intros Hget. unfold DoGet. by rewrite Hget.
Qed.

(** X17. [DoPost] closes the body of the response it got, once and as
    its last call, also when [http.Post] returned an error with the
    response; with no response or no body its only call is the post. *)
Theorem DoPost_closes_body n st (w : World Env) i ev :
  calls_since w (DoPost respond n st w).2 !! i = Some ev →
  verb_of ev = Post →
  match body_to_close (response_of ev) with
  | Some b =>
      ∃ r, calls_since w (DoPost respond n st w).2 =
           [ev; Ev (ReadCloser_Close b) r]
  | None => calls_since w (DoPost respond n st w).2 = [ev]
  end.
Proof.
  unfold DoPost. intros Hin%list_elem_of_lookup_2 Hverb. revert Hin.
  destruct (n_Body n) as [t|]; [destruct (Execute t _) as [out [err|]]|];
    destruct (n_Post n) as [url|]; run_unfold.
  all: try match goal with
    |- context [respond ?X ?s ?e] =>
      destruct (respond X s e) as [s1 [[r|] err]]; simpl;
      [destruct (resp_Body r) as [b|] eqn:Hb|]
    end; crunch respond.
  all: first [ rewrite calls_since_same
             | rewrite calls_since_refl
             | rewrite <- ?app_assoc; rewrite calls_since_snoc ].
  all: cbn [app]; intros Hin;
    rewrite ?elem_of_cons, ?elem_of_nil in Hin; destruct_or?; subst;
    try discriminate; try done.
  all: simpl; rewrite ?Hb; eauto.
Qed.

(** X18. When [http.Post] returns a response and no error, [DoPost]
    returns and adds one entry to the log: of error level when the status
    is 300 or more, of info level when it is less. *)
Theorem DoPost_status n st (w : World Env) i u ct body resp :
  calls_since w (DoPost respond n st w).2 !! i =
    Some (Ev (http_Post u ct body) (Some resp, None)) →
  (DoPost respond n st w).1 = Returned tt ∧
  ∃ l, log (DoPost respond n st w).2 = log w ++ [l] ∧
       is_failure_log l = bool_decide (300 ≤ StatusCode resp).
Proof.
  unfold DoPost. intros Hin%list_elem_of_lookup_2. revert Hin.
  destruct (n_Body n) as [t|]; [destruct (Execute t _) as [out [err|]]|];
    destruct (n_Post n) as [url|]; run_unfold.
  all: try match goal with
    |- context [respond ?X ?s ?e] =>
      destruct (respond X s e) as [s1 [[r|] err]]; simpl;
      [destruct (resp_Body r) as [b|] eqn:Hb|]
    end; crunch respond.
  all: first [ rewrite calls_since_same
             | rewrite calls_since_refl
             | rewrite <- ?app_assoc; rewrite calls_since_snoc ].
  all: cbn [app]; intros Hin;
    rewrite ?elem_of_cons, ?elem_of_nil in Hin; destruct_or?;
    try done.
  all: try (apply (f_equal verb_of) in Hin; discriminate).
  all: try (apply (f_equal error_of) in Hin; discriminate).
  all: apply (f_equal response_of) in Hin; simpl in Hin; simplify_eq.
  all: split; [done|]; eexists; split; [reflexivity|]; simpl; symmetry.
  all: first [ apply bool_decide_eq_true_2; lia
             | apply bool_decide_eq_false_2; lia ].
Qed.

(** X19. [DoGet] on a notification with a GET endpoint makes one call,
    the GET of that endpoint; it never closes the body of the response;
    it leaves the counters alone. *)
Theorem DoGet_one_call n ak url (w : World Env) :
  n_Get n = Some url →
  calls_since w (DoGet respond n ak w).2 =
    [Ev (http_Get (URL_String url))
        (respond _ (env w) (http_Get (URL_String url))).2] ∧
  counters (DoGet respond n ak w).2 = counters w.
Proof.
  intros Hget. unfold DoGet. rewrite Hget. run_unfold.
  destruct (respond _ (env w) (http_Get _)) as [s [[r|] [err|]]];
    crunch respond; by rewrite calls_since_snoc.
Qed.

(** X20. [DoGet] logs the outcome once: the error of [http.Get] when
    there is one; else the response, at error level when its status is
    300 or more and at info level when it is less. *)
Theorem DoGet_outcome n ak url (w : World Env) :
  n_Get n = Some url →
  match (respond _ (env w) (http_Get (URL_String url))).2 with
  | (_, Some err) =>
      (DoGet respond n ak w).1 = Returned tt ∧
      log (DoGet respond n ak w).2 = log w ++ [slog_Error [VError err]]
  | (Some r, None) =>
      (DoGet respond n ak w).1 = Returned tt ∧
      ∃ l, log (DoGet respond n ak w).2 = log w ++ [l] ∧
           is_failure_log l = bool_decide (300 ≤ StatusCode r)
  | (None, None) => (DoGet respond n ak w).1 = Panicked
  end.
Proof.
  intros Hget. unfold DoGet. rewrite Hget. run_unfold.
  destruct (respond _ (env w) (http_Get _)) as [s [[r|] [err|]]];
    crunch respond; try done.
  all: split; [done|]; eexists; split; [reflexivity|]; simpl; symmetry.
  all: first [ apply bool_decide_eq_true_2; lia
             | apply bool_decide_eq_false_2; lia ].
Qed.

End MoreHTTP.

(** What [Notify] starts. *)
Lemma Notify_members n st c :
  (∀ st' c', go_DoEmail st' c' ∈ Notify n st c ↔
             n_Email n ≠ [] ∧ st' = st ∧ c' = c) ∧
  (∀ st', go_DoPost st' ∈ Notify n st c ↔ n_Post n ≠ None ∧ st' = st) ∧
  (∀ ak, go_DoGet ak ∈ Notify n st c ↔ n_Get n ≠ None ∧ ak = AlertKey st) ∧
  (∀ payload, go_DoPrint payload ∈ Notify n st c ↔
     n_Print n = true ∧
     payload = if n_UseBody n
               then "Subject: " +:+ Subject st +:+ ", Body: " +:+ Body st
               else Subject st).
Proof.
  unfold Notify.
  destruct (n_Email n) as [|a l], (n_Post n) as [url|], (n_Get n) as [get|],
    (n_Print n), (n_UseBody n); simpl.
  all: repeat split; intros;
    rewrite ?elem_of_cons, ?elem_of_nil in *;
    try (destruct_or?; destruct_and?; simplify_eq; done);
    try (destruct_and?; simplify_eq; tauto).
Qed.


(** X22. What [Notify] starts for the print channel writes one line of
    info level to the log, the subject, or the subject and the body when
    [UseBody] is set, and does nothing else. *)
Theorem Notify_print {Env : Type}
    (respond : ∀ X : Type, Env → netE X → Env * X) parse message hostname
    n st c payload (w : World Env) :
  go_DoPrint payload ∈ Notify n st c →
  goroutine_body respond parse message hostname n (go_DoPrint payload) w =
  (Returned tt,
   mkWorld (env w) (trace w)
     (log w ++
      [slog_Infoln
         [VString (if n_UseBody n
                   then "Subject: " +:+ Subject st +:+ ", Body: " +:+ Body st
                   else Subject st)]])
     (counters w)).
Proof.
  intros Hin. destruct (Notify_members n st c) as (_ & _ & _ & Hp).
  apply Hp in Hin as [_ ->]. reflexivity.
Qed.

(** ** The properties on the scripted relays *)

Lemma SendMail_dial_failure_witness :
  (Faults.fails_at Dial Faults.refused open_relay _ (env start)
     (smtp_Dial "relay:25")).2 = Some Faults.refused ∧
  calls_since start
    (SendMail (Faults.fails_at Dial Faults.refused open_relay) "relay:25"
       "user" "secret" "a@x.com" ["b@y.com"] [] start).2 =
  [Ev (smtp_Dial "relay:25") (Some Faults.refused)].
Proof.
  split; [reflexivity|].
  apply (SendMail_dial_failure
           (Faults.fails_at Dial Faults.refused open_relay) "relay:25"
           "user" "secret" "a@x.com" ["b@y.com"] [] start Faults.refused).
  reflexivity.
Defined.

Lemma SendMail_auth_host_witness :
  has_char colon "relay" = false ∧
  (calls_of Auth
     (calls_since start
        (SendMail (answers tls_relay) "relay:25" "user" "secret" "a@x.com"
           ["b@y.com"] [] start).2) = [] ∨
   ∃ r, calls_of Auth
          (calls_since start
             (SendMail (answers tls_relay) "relay:25" "user" "secret"
                "a@x.com" ["b@y.com"] [] start).2) =
        [Ev (Client_Auth (PlainAuth EmptyString "user" "secret" "relay")) r]).
Proof.
  split; [reflexivity|].
  exact (proj1 (SendMail_auth_host (answers tls_relay) "relay" "25" "user"
                  "secret" "a@x.com" ["b@y.com"] [] start eq_refl)).
Defined.


Lemma Send_envelope_witness :
  message mail_cc = inl (bytes_of_string "disk is full") ∧
  (calls_of Mail
     (calls_since start
        (Send (answers open_relay) parse message mail_cc "relay:25"
           EmptyString EmptyString start).2) = [] ∨
   ∃ r, calls_of Mail
          (calls_since start
             (Send (answers open_relay) parse message mail_cc "relay:25"
                EmptyString EmptyString start).2) =
        [Ev (Client_Mail "a@x.com") r]).
Proof.
  split; [reflexivity|].
  apply (Send_envelope (answers open_relay) parse message mail_cc "relay:25"
           EmptyString EmptyString
           {| Name := EmptyString; Address := "a@x.com" |}
           (bytes_of_string "disk is full") start);
    reflexivity.
Defined.

Lemma DoEmail_invalid_witness :
  n_Email hook = [] ∧
  calls_since start
    (DoEmail (answers open_relay) parse message "bosun01" hook incident
       Faults.conf start).2 = [].
Proof.
  split; [reflexivity|].
  apply (DoEmail_invalid (answers open_relay) parse message "bosun01" hook
           incident Faults.conf start).
  left. reflexivity.
Defined.

Lemma DoPost_without_template_witness :
  n_Body Faults.raw_hook = None ∧
  ∃ reply,
    calls_of Post
      (calls_since start
         (DoPost (answers open_relay) Faults.raw_hook incident start).2) =
    [Ev (http_Post "http://hook/" "text/plain" (bytes_of_string "disk full"))
        reply].
Proof.
  split; [reflexivity|].
  exact (DoPost_without_template (answers open_relay) Faults.raw_hook
           incident {| URL_String := "http://hook/" |} start eq_refl eq_refl).
Defined.

Lemma DoPost_full_context_witness :
  n_UseFullContext Faults.full_hook = true ∧
  ∃ reply,
    calls_of Post
      (calls_since start
         (DoPost (answers open_relay) Faults.full_hook incident start).2) =
    [Ev (http_Post "http://hook/" "text/plain"
           (bytes_of_string "Alert: disk")) reply].
Proof.
  split; [reflexivity|].
  exact (DoPost_full_context (answers open_relay) Faults.full_hook incident
           alert_template {| URL_String := "http://hook/" |} start
           eq_refl eq_refl eq_refl).
Defined.

Lemma nil_endpoint_panics_witness :
  n_Post Faults.oncall = None ∧ n_Get hook = None ∧
  DoPost (answers open_relay) Faults.oncall incident start =
    (Panicked, start) ∧
  DoGet (answers open_relay) hook "disk{host=a}" start = (Panicked, start).
Proof.
  split; [reflexivity|]. split; [reflexivity|]. split.
  - apply (proj1 (nil_endpoint_panics (answers open_relay) Faults.oncall
                    incident EmptyString start)); [reflexivity|].
    intros t Ht. discriminate Ht.
  - apply (proj2 (nil_endpoint_panics (answers open_relay) hook
                    incident "disk{host=a}" start)).
    reflexivity.
Defined.

Lemma DoPost_closes_body_witness :
  verb_of
    (Ev (http_Post "http://hook/" "text/plain"
           (bytes_of_string "Alert: disk full"))
        (Some {| Status := "404 Not Found"; StatusCode := 404;
                 resp_Body := Some 0%nat |}, None)) = Post ∧
  ∃ r,
    calls_since start (DoPost (answers plain_relay) hook incident start).2 =
    [Ev (http_Post "http://hook/" "text/plain"
           (bytes_of_string "Alert: disk full"))
        (Some {| Status := "404 Not Found"; StatusCode := 404;
                 resp_Body := Some 0%nat |}, None);
     Ev (ReadCloser_Close 0%nat) r].
Proof.
  split; [reflexivity|].
  exact (DoPost_closes_body (answers plain_relay) hook incident start 0%nat
           (Ev (http_Post "http://hook/" "text/plain"
                  (bytes_of_string "Alert: disk full"))
               (Some {| Status := "404 Not Found"; StatusCode := 404;
                        resp_Body := Some 0%nat |}, None))
           eq_refl eq_refl).
Defined.

Lemma DoPost_status_witness :
  (DoPost (answers open_relay) hook incident start).1 = Returned tt ∧
  ∃ l,
    log (DoPost (answers open_relay) hook incident start).2 =
    log start ++ [l] ∧
    is_failure_log l = bool_decide (300 ≤ 200).
Proof.
  exact (DoPost_status (answers open_relay) hook incident start 0%nat
           "http://hook/" "text/plain" (bytes_of_string "Alert: disk full")
           {| Status := "200 OK"; StatusCode := 200;
              resp_Body := Some 0%nat |} eq_refl).
Defined.

Lemma DoGet_one_call_witness :
  n_Get Faults.oncall = Some {| URL_String := "http://hook/ping" |} ∧
  counters (DoGet (answers open_relay) Faults.oncall "disk{host=a}" start).2 =
  counters start.
Proof.
  split; [reflexivity|].
  apply (DoGet_one_call (answers open_relay) Faults.oncall "disk{host=a}"
           {| URL_String := "http://hook/ping" |} start).
  reflexivity.
Defined.

Lemma DoGet_outcome_witness :
  (DoGet (Faults.fails_at Get Faults.refused open_relay) Faults.oncall
     "disk{host=a}" start).1 = Returned tt ∧
  log (DoGet (Faults.fails_at Get Faults.refused open_relay) Faults.oncall
         "disk{host=a}" start).2 =
  log start ++ [slog_Error [VError Faults.refused]].
Proof.
  exact (DoGet_outcome (Faults.fails_at Get Faults.refused open_relay)
           Faults.oncall "disk{host=a}"
           {| URL_String := "http://hook/ping" |} start eq_refl).
Defined.

Lemma Notify_print_witness :
  go_DoPrint "disk" ∈ Notify Faults.oncall incident Faults.conf ∧
  goroutine_body (answers open_relay) parse message "bosun01" Faults.oncall
    (go_DoPrint "disk") start =
  (Returned tt,
   mkWorld (env start) (trace start)
     (log start ++ [slog_Infoln [VString "disk"]]) (counters start)).
Proof.
  assert (H : go_DoPrint "disk" ∈ Notify Faults.oncall incident Faults.conf).
  { vm_compute. repeat constructor. }
  split; [exact H|].
  exact (Notify_print (answers open_relay) parse message "bosun01"
           Faults.oncall incident Faults.conf "disk" start H).
Defined.
